(** * SolarEdge forecast: the forecasting core of [solaredgeforecast/__init__.py]

    A shallow embedding of [SolaredgeForecast.__init__] and
    [SolaredgeForecast.get_solar_forecast].

    Conventions of the model:
    - a [datetime.date] / pandas timestamp at midnight is a record
      [Date] of year, month and day in the proleptic Gregorian calendar
      (years are not bounded);
    - Python and pandas floats are exact rationals [Q]; a NaN cell of a
      pandas column is [None], so a float column is a [list (option Q)];
    - a pandas [Series] indexed by month number is a [gmap Z Q], and a
      label lookup that pandas rejects is the error [KeyError];
    - the SolarEdge client is a record of the answers to the three calls
      the code makes; energies it reports are numbers, and a call that
      fails is outside the model. *)

From Stdlib Require Import ZArith QArith Qround Qabs Qminmax List Lia Lqa Bool.
From stdpp Require Import gmap.
Import ListNotations.

Local Open Scope Z_scope.

(** ** Calendar *)

Module Calendar.

Record Date := mkDate { year : Z; month : Z; day : Z }.

Definition is_leap (y : Z) : bool :=
  (y mod 4 =? 0) && (negb (y mod 100 =? 0) || (y mod 400 =? 0)).

(** [calendar.monthrange(y, m)[1]], pandas' [dt.days_in_month]. *)
Definition days_in_month (y m : Z) : Z :=
  if m =? 2 then (if is_leap y then 29 else 28)
  else if (m =? 4) || (m =? 6) || (m =? 9) || (m =? 11) then 30
  else 31.

Definition valid_date (d : Date) : Prop :=
  1 <= month d <= 12 /\ 1 <= day d <= days_in_month (year d) (month d).

Definition valid_dateb (d : Date) : bool :=
  (1 <=? month d) && (month d <=? 12) && (1 <=? day d)
  && (day d <=? days_in_month (year d) (month d)).

(** Number of days before January 1st of year [y] ([_days_before_year]). *)
Definition days_before_year (y : Z) : Z :=
  let p := y - 1 in p * 365 + p / 4 - p / 100 + p / 400.

(** Number of days of year [y] before the first of month [m]. *)
Definition days_before_month (y m : Z) : Z :=
  let leap := if is_leap y then 1 else 0 in
  if m <=? 1 then 0
  else if m =? 2 then 31
  else if m =? 3 then 59 + leap
  else if m =? 4 then 90 + leap
  else if m =? 5 then 120 + leap
  else if m =? 6 then 151 + leap
  else if m =? 7 then 181 + leap
  else if m =? 8 then 212 + leap
  else if m =? 9 then 243 + leap
  else if m =? 10 then 273 + leap
  else if m =? 11 then 304 + leap
  else 334 + leap.

(** [date.toordinal()]: January 1st of year 1 is day 1. *)
Definition toordinal (d : Date) : Z :=
  days_before_year (year d) + days_before_month (year d) (month d) + day d.

(** Dates are compared through their position on the time line, as pandas
    compares timestamps. *)
Definition date_leb (a b : Date) : bool := toordinal a <=? toordinal b.
Definition date_ltb (a b : Date) : bool := toordinal a <? toordinal b.

(** [d + timedelta(days=1)] *)
Definition next_day (d : Date) : Date :=
  if day d <? days_in_month (year d) (month d)
  then mkDate (year d) (month d) (day d + 1)
  else if month d <? 12 then mkDate (year d) (month d + 1) 1
  else mkDate (year d + 1) 1 1.

(** [d - timedelta(days=1)] *)
Definition prev_day (d : Date) : Date :=
  if 1 <? day d then mkDate (year d) (month d) (day d - 1)
  else if 1 <? month d
       then mkDate (year d) (month d - 1) (days_in_month (year d) (month d - 1))
       else mkDate (year d - 1) 12 31.

(** [dateutil.relativedelta(months=.., day=..)]: a relative month shift
    and an optional absolute day of month. *)
Record relativedelta := mkDelta { rd_months : Z; rd_day : option Z }.

Definition rd_neg (r : relativedelta) : relativedelta :=
  mkDelta (- rd_months r) (rd_day r).

(** [relativedelta.__radd__]: shift the month, carry into the year, then
    clip the day to the length of the month reached. *)
Definition date_add (d : Date) (r : relativedelta) : Date :=
  let m0 := month d + rd_months r in
  let '(y, m) :=
    if 12 <? m0 then (year d + 1, m0 - 12)
    else if m0 <? 1 then (year d - 1, m0 + 12)
    else (year d, m0) in
  let want := match rd_day r with Some k => k | None => day d end in
  mkDate y m (Z.min (days_in_month y m) want).

Definition date_sub (d : Date) (r : relativedelta) : Date :=
  date_add d (rd_neg r).

Fixpoint days_from (n : nat) (d : Date) : list Date :=
  match n with
  | O => []
  | S k => d :: days_from k (next_day d)
  end.

(** [pd.date_range(start=lo, end=hi)]: every day from [lo] to [hi]
    inclusive, and nothing when [hi] is before [lo]. *)
Definition date_range (lo hi : Date) : list Date :=
  days_from (Z.to_nat (toordinal hi - toordinal lo + 1)) lo.

End Calendar.

Export Calendar.

(** ** Python values and errors *)

Module Py.

Inductive Error :=
| KeyError (label : Z)
| AttributeError.

Inductive Result (A : Type) :=
| Ok (a : A)
| Raise (e : Error).
Arguments Ok {A} a.
Arguments Raise {A} e.

Definition bind {A B} (r : Result A) (k : A -> Result B) : Result B :=
  match r with
  | Ok a => k a
  | Raise e => Raise e
  end.

Fixpoint map_result {A B} (f : A -> Result B) (l : list A) : Result (list B) :=
  match l with
  | [] => Ok []
  | a :: t =>
      bind (f a) (fun b => bind (map_result f t) (fun bs => Ok (b :: bs)))
  end.

Definition Qlt_bool (x y : Q) : bool := negb (Qle_bool y x).

(** [max(a, b)]: the first argument unless the second is strictly larger. *)
Definition max (a b : Q) : Q := if Qlt_bool a b then b else a.

(** [round(x)] on a float: to the nearest integer, ties to the even one. *)
Definition round (x : Q) : Z :=
  let f := Qfloor x in
  let r := (x - inject_Z f)%Q in
  if Qlt_bool r (1 # 2) then f
  else if Qlt_bool (1 # 2) r then f + 1
  else if Z.even f then f else f + 1.

End Py.

Export Py.

(** ** The SolarEdge monitoring client *)

Inductive TimeUnit := MONTH | YEAR | DAY.

(** One entry of [get_energy(..)['energy']['values']]: the first day of a
    month and the energy of the month in Wh, a number. *)
Record EnergyValue := mkValue { ev_date : Date; ev_value : Q }.

(** The answers of the client for the configured site: the start date of
    [get_data_period], the monthly values of [get_energy] and the total
    (in Wh) of [get_time_frame_energy]. *)
Record Solaredge := mkSolaredge {
  get_data_period : Date;
  get_energy : Date -> Date -> TimeUnit -> list EnergyValue;
  get_time_frame_energy : Date -> Date -> TimeUnit -> Q
}.

(** ** pandas operations used by the forecast *)

Module Pandas.

Local Open Scope Q_scope.

(** A frame indexed by date with one float column, [energy]; the columns
    [month] and [day] of the source are [dt.month] and [dt.day] of the
    index. *)
Abbreviation Row := (Date * option Q)%type.

Fixpoint take_while {A} (p : A -> bool) (l : list A) : list A :=
  match l with
  | [] => []
  | a :: t => if p a then a :: take_while p t else []
  end.

Fixpoint drop_while {A} (p : A -> bool) (l : list A) : list A :=
  match l with
  | [] => []
  | a :: t => if p a then drop_while p t else l
  end.

(** [frame.loc[a:b]] on a frame whose index increases: the rows from the
    first one not before [a] up to the last one not after [b]. *)
Definition loc (a b : Date) (rows : list Row) : list Row :=
  take_while (fun r => date_leb (fst r) b)
             (drop_while (fun r => date_ltb (fst r) a) rows).

(** [frame['energy'].sum()]: NaN cells are skipped. *)
Fixpoint energy_sum (rows : list Row) : Q :=
  match rows with
  | [] => 0
  | (_, Some v) :: t => v + energy_sum t
  | (_, None) :: t => energy_sum t
  end.

(** Distance to, and value of, the first filled cell of a column. *)
Fixpoint next_valid (col : list (option Q)) : option (nat * Q) :=
  match col with
  | [] => None
  | Some v :: _ => Some (O, v)
  | None :: t =>
      match next_valid t with
      | Some (k, v) => Some (S k, v)
      | None => None
      end
  end.

(** The value [np.interp] gives a NaN cell that lies [dp] positions after
    a filled cell [a] and [S dn] positions before a filled cell [b];
    with a filled cell on one side only, that cell's value. *)
Definition interp_cell (prev : option (nat * Q)) (next : option (nat * Q))
  : option Q :=
  match prev, next with
  | Some (dp, a), Some (dn, b) =>
      Some ((b - a) / inject_Z (Z.of_nat (dp + S dn)) * inject_Z (Z.of_nat dp) + a)
  | Some (_, a), None => Some a
  | None, Some (_, b) => Some b
  | None, None => None
  end.

Definition step_prev (prev : option (nat * Q)) : option (nat * Q) :=
  match prev with
  | Some (dp, a) => Some (S dp, a)
  | None => None
  end.

(** [prev] is the last filled cell before the column and its distance to
    the head of the column. *)
Fixpoint interpolate_from (prev : option (nat * Q)) (col : list (option Q))
  : list (option Q) :=
  match col with
  | [] => []
  | Some v :: t => Some v :: interpolate_from (Some (1%nat, v)) t
  | None :: t =>
      interp_cell prev (next_valid t) :: interpolate_from (step_prev prev) t
  end.

(** [column.interpolate(limit_direction='both')]: linear in the position
    between filled cells, flat before the first and after the last. *)
Definition interpolate_column (col : list (option Q)) : list (option Q) :=
  interpolate_from None col.

(** [frame.interpolate(limit_direction='both')] *)
Definition interpolate (rows : list Row) : list Row :=
  combine (map fst rows) (interpolate_column (map snd rows)).

(** [rows.groupby(key)[value].mean()]: per key, the sum and the number of
    the values, then their quotient. *)
Definition group_add (acc : gmap Z (Q * Z)) (kv : Z * Q) : gmap Z (Q * Z) :=
  let '(k, v) := kv in
  match acc !! k with
  | Some (s, n) => <[k := (s + v, (n + 1)%Z)]> acc
  | None => <[k := (v, 1%Z)]> acc
  end.

Definition groupby_mean (rows : list (Z * Q)) : gmap Z Q :=
  (fun sn : Q * Z => fst sn / inject_Z (snd sn))
    <$> fold_left group_add rows ∅.

End Pandas.

Export Pandas.

(** ** [class SolaredgeForecast] *)

Module Forecast.

Local Open Scope Q_scope.

Record SolaredgeForecast := mkForecast {
  startdate : Date;
  enddate : Date;
  startdate_production : option Date
}.

(** [__init__]: an explicit production start that is not the first of a
    month moves to the first of the next month; an absent (or empty)
    one is kept as it is. *)
Definition init_startdate_production (arg : option Date) : option Date :=
  match arg with
  | Some date =>
      Some (if (1 <? day date)%Z
            then date_add date (mkDelta 1 (Some 1%Z))
            else date)
  | None => None
  end.

Definition init (start end_ : Date) (start_production : option Date)
  : SolaredgeForecast :=
  mkForecast start end_ (init_startdate_production start_production).

(** [get_solar_forecast], "Get date when production started". *)
Definition production_start (self : SolaredgeForecast) (data : Solaredge) : Date :=
  match startdate_production self with
  | Some d => d
  | None => date_add (get_data_period data) (mkDelta 1 (Some 1%Z))
  end.

(** [now.date().replace(day=1) - timedelta(days=1)] *)
Definition last_month (now : Date) : Date :=
  prev_day (mkDate (year now) (month now) 1).

(** The rows [df[df.energy != 0]] keeps. *)
Definition retained (values : list EnergyValue) : list EnergyValue :=
  List.filter (fun r => negb (Qeq_bool (ev_value r) 0)) values.

(** [df = pd.DataFrame(values)] ... [df = df[df.energy != 0]]: a frame
    built from no values at all has no column [energy], and [df.energy]
    fails on it. *)
Definition monthly_frame (values : list EnergyValue) : Result (list EnergyValue) :=
  match values with
  | [] => Raise AttributeError
  | _ => Ok (retained values)
  end.

(** [df.energy / df.days_in_month / 1000] *)
Definition daily_energy (r : EnergyValue) : Q :=
  ev_value r / inject_Z (days_in_month (year (ev_date r)) (month (ev_date r)))
  / 1000.

Definition month_rows (df : list EnergyValue) : list (Z * Q) :=
  map (fun r => (month (ev_date r), daily_energy r)) df.

(** [averages = df.groupby(df.date.dt.month)['energy'].mean()] *)
Definition seasonal_averages (values : list EnergyValue) : Result (gmap Z Q) :=
  bind (monthly_frame values) (fun df => Ok (groupby_mean (month_rows df))).

(** The index of [daily]: all days between startdate - 1 month and
    enddate + 1 month. *)
Definition first_day (self : SolaredgeForecast) : Date :=
  date_sub (startdate self) (mkDelta 1 None).

Definition last_day (self : SolaredgeForecast) : Date :=
  date_add (enddate self) (mkDelta 1 None).

Definition daily_index (self : SolaredgeForecast) : list Date :=
  date_range (first_day self) (last_day self).

(** [average(row)]: the monthly average on the 15th, nothing (NaN in the
    column) on any other day; [averages[k]] raises for an absent [k]. *)
Definition average (averages : gmap Z Q) (d : Date) : Result (option Q) :=
  if (day d =? 15)%Z then
    match averages !! month d with
    | Some v => Ok (Some v)
    | None => Raise (KeyError (month d))
    end
  else Ok None.

(** [daily['energy'] = daily.apply(average, axis=1)] *)
Definition seed_daily (averages : gmap Z Q) (index : list Date)
  : Result (list Row) :=
  bind (map_result (average averages) index)
       (fun col => Ok (combine index col)).

(** [daily] after [daily.interpolate(limit_direction='both')]. *)
Definition daily_curve (self : SolaredgeForecast) (averages : gmap Z Q)
  : Result (list Row) :=
  bind (seed_daily averages (daily_index self))
       (fun daily => Ok (interpolate daily)).

(** The quantities lines 82-107 compute from [daily] and the client. *)
Record Reconciliation := mkReconciliation {
  energy_estimated_from_tomorrow : Q;
  energy_estimated_until_yesterday : Q;
  energy_estimated_today : Q;
  energy_estimated_period : Q;
  energy_production_until_now : Q;
  energy_produced_today : Q;
  energy_produced_until_yesterday : Q;
  energy_produced_today_extra : Q;
  energy_production_progress : Q;
  forecast : Q
}.

Definition reconcile (self : SolaredgeForecast) (data : Solaredge) (now : Date)
  (daily : list Row) : Reconciliation :=
  let yesterday := prev_day now in
  let today := now in
  let tomorrow := next_day now in
  let from_tomorrow := energy_sum (loc tomorrow (enddate self) daily) in
  let until_yesterday := energy_sum (loc (startdate self) yesterday daily) in
  let est_today := energy_sum (loc today today daily) in
  let period := est_today + from_tomorrow in
  let until_now :=
    get_time_frame_energy data (startdate self) (enddate self) YEAR / 1000 in
  let produced_today := get_time_frame_energy data now tomorrow DAY / 1000 in
  let produced_until_yesterday := until_now - produced_today in
  let today_extra := Py.max 0 (produced_today - est_today) in
  let progress := produced_until_yesterday - until_yesterday + today_extra in
  mkReconciliation from_tomorrow until_yesterday est_today period until_now
    produced_today produced_until_yesterday today_extra progress
    (period + until_now).

(** The dictionary [get_solar_forecast] returns. *)
Record ForecastData := mkData {
  solar_energy_produced : Z;
  solar_energy_estimated : Z;
  solar_energy_forecast : Z;
  solar_energy_progress : Z
}.

Definition rounded (r : Reconciliation) : ForecastData :=
  mkData (round (energy_production_until_now r))
         (round (energy_estimated_period r))
         (round (forecast r))
         (round (energy_production_progress r)).

Definition get_solar_forecast (self : SolaredgeForecast) (data : Solaredge)
  (now : Date) : Result ForecastData :=
  let start_production := production_start self data in
  let energy_month_average :=
    get_energy data start_production (last_month now) MONTH in
  bind (seasonal_averages energy_month_average) (fun averages =>
  bind (daily_curve self averages) (fun daily =>
  Ok (rounded (reconcile self data now daily)))).

End Forecast.

Export Forecast.

(** ** Vocabulary of the statements *)

(** [n] consecutive integers from [s]. *)
Fixpoint zrange (s : Z) (n : nat) : list Z :=
  match n with
  | O => []
  | S k => s :: zrange (s + 1) k
  end.

(** The filled cells of a column, and the least and greatest of a list
    of values. *)
Fixpoint filled (col : list (option Q)) : list Q :=
  match col with
  | [] => []
  | Some v :: t => v :: filled t
  | None :: t => filled t
  end.

Definition list_min (l : list Q) : option Q :=
  match l with
  | [] => None
  | x :: t => Some (fold_right Qmin x t)
  end.

Definition list_max (l : list Q) : option Q :=
  match l with
  | [] => None
  | x :: t => Some (fold_right Qmax x t)
  end.

(** A frame whose date index does not decrease, as [loc] needs it. *)
Fixpoint nondecreasing (l : list Z) : bool :=
  match l with
  | [] => true
  | a :: t =>
      match t with
      | [] => true
      | b :: _ => (a <=? b) && nondecreasing t
      end
  end.

Definition sorted_by_date (rows : list Row) : Prop :=
  nondecreasing (map (fun r => toordinal (fst r)) rows) = true.

(** The rows dated from [a] to [b]. *)
Definition in_range (a b : Date) (r : Row) : bool :=
  date_leb a (fst r) && date_leb (fst r) b.

(** The sum of the energy of the rows whose date satisfies [p]. *)
Definition slice_sum (p : Date -> bool) (rows : list Row) : Q :=
  energy_sum (List.filter (fun r => p (fst r)) rows).

(** [z] is an integer nearest to [x]. *)
Definition nearest_integer (x : Q) (z : Z) : Prop :=
  (Qabs (inject_Z z - x) <= 1 # 2)%Q.

(** The number of days of the requested range. *)
Definition days_in_range (self : SolaredgeForecast) : Z :=
  toordinal (enddate self) - toordinal (startdate self) + 1.

(** The arithmetic mean of a list of values. *)
Fixpoint Qsum (l : list Q) : Q :=
  match l with
  | [] => 0%Q
  | x :: t => (x + Qsum t)%Q
  end.

Definition mean (l : list Q) : Q :=
  (Qsum l / inject_Z (Z.of_nat (length l)))%Q.

(** The values of the rows with key [k]. *)
Definition group_values (k : Z) (rows : list (Z * Q)) : list Q :=
  map snd (List.filter (fun kv => fst kv =? k) rows).

(** An accumulator cell of [groupby] holds the sum [s] of [n] values, and
    there is no cell before the first value. *)
Definition tally (cell : option (Q * Z)) (s : Q) (n : Z) : Prop :=
  match cell with
  | Some (s', n') => (s' == s)%Q /\ n' = n /\ 0 < n
  | None => n = 0 /\ (s == 0)%Q
  end.

(** Every row of the frame has a value, and it is [x]. *)
Definition constant_rows (x : Q) (rows : list Row) : Prop :=
  Forall (fun r => exists w, snd r = Some w /\ (w == x)%Q) rows.

(** The first day of the month after [d]. *)
Definition first_of_next_month (d : Date) : Date :=
  if (month d =? 12)%Z then mkDate (year d + 1) 1 1
  else mkDate (year d) (month d + 1) 1.

(** The estimate of [result] is [x] times the number of days of the
    requested range, within the final rounding. *)
Definition estimate_covers_whole_range (x : Q) (self : SolaredgeForecast)
    (result : ForecastData) : Prop :=
  (Qabs (inject_Z (solar_energy_estimated result)
         - x * inject_Z (days_in_range self)) <= 1)%Q.

(** ** Example inputs *)

Local Open Scope Q_scope.

(** The range March 2024, with no explicit production start. *)
Definition march_2024 : SolaredgeForecast :=
  init (mkDate 2024 3 1) (mkDate 2024 3 31) None.

(** A history of the twelve months of 2023 at [x] kWh a day. *)
Definition flat_history (x : Q) : list EnergyValue :=
  map (fun m => mkValue (mkDate 2023 m 1)
                        (x * inject_Z (days_in_month 2023 m) * 1000))
      [1; 2; 3; 4; 5; 6; 7; 8; 9; 10; 11; 12]%Z.

(** A client that reports the history [history], [wh_year] Wh over the
    requested range and [wh_today] Wh for today. *)
Definition provider (first_data : Date) (history : list EnergyValue)
    (wh_year wh_today : Q) : Solaredge :=
  mkSolaredge first_data
    (fun _ _ _ => history)
    (fun _ _ unit => match unit with YEAR => wh_year | _ => wh_today end).

Definition flat_provider : Solaredge :=
  provider (mkDate 2022 12 1) (flat_history 10) 450000 12000.

(** The same history without February. *)
Definition history_without_february : list EnergyValue :=
  List.filter (fun r => negb (month (ev_date r) =? 2)%Z) (flat_history 10).

Definition sparse_provider : Solaredge :=
  provider (mkDate 2022 12 1) history_without_february 450000 12000.

(** The monthly averages of the two histories. *)
Definition averages_of (history : list EnergyValue) : gmap Z Q :=
  groupby_mean (month_rows (retained history)).

Definition flat_averages : gmap Z Q := averages_of (flat_history 10).

Definition sparse_averages : gmap Z Q := averages_of history_without_february.

(** The daily curve of March 2024 under the flat averages. *)
Definition flat_curve : list Row :=
  match daily_curve march_2024 flat_averages with
  | Ok daily => daily
  | Raise _ => []
  end.

(** Three rows around the 15th of March 2024. *)
Definition sample_curve : list Row :=
  [(mkDate 2024 3 14, Some 9); (mkDate 2024 3 15, Some 10);
   (mkDate 2024 3 16, Some 11)].

Local Close Scope Q_scope.

(** Every value of the frame is at least 0. *)
Definition nonneg_rows (rows : list Row) : Prop :=
  Forall (fun r => forall v, snd r = Some v -> (0 <= v)%Q) rows.

(** The rows whose day number lies from [lo] to [hi]. *)
Definition between (lo hi : Z) (r : Row) : bool :=
  ((lo <=? toordinal (fst r)) && (toordinal (fst r) <=? hi))%Z.

(** Clients whose history is a single January, without and with energy. *)
Definition zero_provider : Solaredge :=
  provider (mkDate 2022 12 1) [mkValue (mkDate 2023 1 1) 0%Q] 450000%Q 12000%Q.

Definition january_provider : Solaredge :=
  provider (mkDate 2022 12 1) [mkValue (mkDate 2023 1 1) 310000%Q]
           450000%Q 12000%Q.

(** A frame with at most one row a day, in the order of the days, as
    [pd.date_range] builds it. *)
Fixpoint increasing (l : list Z) : bool :=
  match l with
  | [] => true
  | a :: t =>
      match t with
      | [] => true
      | b :: _ => (a <? b) && increasing t
      end
  end.

Definition one_row_a_day (rows : list Row) : Prop :=
  increasing (map (fun r => toordinal (fst r)) rows) = true.

(** The value of the curve on the day numbered [k]: the value of the row
    of that day, 0 when the frame has no such row or its cell is empty. *)
Fixpoint curve_value (rows : list Row) (k : Z) : Q :=
  match rows with
  | [] => 0%Q
  | (d, c) :: t =>
      if toordinal d =? k then match c with Some v => v | None => 0%Q end
      else curve_value t k
  end.

(** The sum of the values of the curve over the days numbered [lo] to
    [hi], day by day; 0 when [hi] is before [lo]. *)
Definition curve_sum (rows : list Row) (lo hi : Z) : Q :=
  Qsum (map (curve_value rows) (zrange lo (Z.to_nat (hi - lo + 1)))).


(** Rows from the end of February to the start of April 2024, one of
    them empty. *)
Definition week_curve : list Row :=
  [(mkDate 2024 2 29, Some 64%Q); (mkDate 2024 3 12, Some 1%Q);
   (mkDate 2024 3 13, Some 2%Q); (mkDate 2024 3 14, Some 4%Q);
   (mkDate 2024 3 15, Some 8%Q); (mkDate 2024 3 16, Some 16%Q);
   (mkDate 2024 3 17, None); (mkDate 2024 3 18, Some 32%Q);
   (mkDate 2024 4 1, Some 128%Q)].

(** A client that reports 5 kWh for today. *)
Definition slow_day_provider : Solaredge :=
  provider (mkDate 2022 12 1) (flat_history 10) 450000%Q 5000%Q.

(** * Properties *)

Local Open Scope Z_scope.

(** ** The calendar *)

Ltac month_cases m :=
  let H := fresh in
  assert (m = 1 \/ m = 2 \/ m = 3 \/ m = 4 \/ m = 5 \/ m = 6 \/ m = 7
          \/ m = 8 \/ m = 9 \/ m = 10 \/ m = 11 \/ m = 12) as H by lia;
  repeat (destruct H as [H | H]; [subst m | ]); [.. | subst m].

Section CalendarFacts.

Lemma is_leap_spec y :
  is_leap y = true <-> (y mod 4 = 0 /\ (y mod 100 <> 0 \/ y mod 400 = 0)).
Proof.
  unfold is_leap. rewrite andb_true_iff, orb_true_iff, negb_true_iff.
  rewrite !Z.eqb_eq, Z.eqb_neq. tauto.
Qed.

Lemma days_before_year_succ y :
  days_before_year (y + 1)
  = days_before_year y + 365 + (if is_leap y then 1 else 0).
Proof.
  unfold days_before_year.
  replace (y + 1 - 1) with y by lia.
  destruct (is_leap y) eqn:E.
  - apply is_leap_spec in E. Z.div_mod_to_equations; lia.
  - assert (~ (y mod 4 = 0 /\ (y mod 100 <> 0 \/ y mod 400 = 0))) as N.
    { rewrite <- is_leap_spec. congruence. }
    Z.div_mod_to_equations; lia.
Qed.

Lemma valid_date_iff d : valid_dateb d = true <-> valid_date d.
Proof.
  unfold valid_dateb, valid_date.
  rewrite !andb_true_iff, !Z.leb_le. tauto.
Qed.

Lemma days_in_month_range y m : 28 <= days_in_month y m <= 31.
Proof.
  unfold days_in_month.
  repeat match goal with |- context [if ?b then _ else _] => destruct b end; lia.
Qed.

Lemma days_before_month_succ y m :
  1 <= m <= 11 ->
  days_before_month y (m + 1) = days_before_month y m + days_in_month y m.
Proof.
  intros Hm. month_cases m; try lia; unfold days_before_month, days_in_month;
    destruct (is_leap y); reflexivity.
Qed.

Lemma days_before_month_dec y :
  days_before_month y 12 + 31 = 365 + (if is_leap y then 1 else 0).
Proof. unfold days_before_month. destruct (is_leap y); reflexivity. Qed.

Lemma toordinal_next_day d :
  valid_date d -> toordinal (next_day d) = toordinal d + 1.
Proof.
  destruct d as [y m k]. unfold valid_date, next_day, toordinal; cbn [year month day].
  intros [Hm Hk].
  destruct (Z.ltb_spec k (days_in_month y m)); cbn [year month day]; [lia |].
  destruct (Z.ltb_spec m 12); cbn [year month day].
  - rewrite days_before_month_succ by lia. lia.
  - assert (m = 12) by lia; subst m.
    rewrite days_before_year_succ.
    pose proof (days_before_month_dec y).
    change (days_in_month y 12) with 31 in *.
    change (days_before_month (y + 1) 1) with 0. lia.
Qed.

Lemma valid_next_day d : valid_date d -> valid_date (next_day d).
Proof.
  destruct d as [y m k]. unfold valid_date, next_day; cbn [year month day].
  intros [Hm Hk].
  destruct (Z.ltb_spec k (days_in_month y m)); cbn [year month day]; [lia |].
  destruct (Z.ltb_spec m 12); cbn [year month day].
  - pose proof (days_in_month_range y (m + 1)). lia.
  - pose proof (days_in_month_range (y + 1) 1). lia.
Qed.

Lemma toordinal_prev_day d :
  valid_date d -> toordinal (prev_day d) = toordinal d - 1.
Proof.
  destruct d as [y m k]. unfold valid_date, prev_day, toordinal; cbn [year month day].
  intros [Hm Hk].
  destruct (Z.ltb_spec 1 k); cbn [year month day]; [lia |].
  destruct (Z.ltb_spec 1 m); cbn [year month day].
  - pose proof (days_before_month_succ y (m - 1)).
    replace (m - 1 + 1) with m in * by lia. lia.
  - assert (m = 1) by lia; subst m.
    pose proof (days_before_year_succ (y - 1)) as HY.
    replace (y - 1 + 1) with y in HY by lia.
    pose proof (days_before_month_dec (y - 1)).
    change (days_before_month y 1) with 0. lia.
Qed.

Lemma valid_prev_day d : valid_date d -> valid_date (prev_day d).
Proof.
  destruct d as [y m k]. unfold valid_date, prev_day; cbn [year month day].
  intros [Hm Hk].
  destruct (Z.ltb_spec 1 k); cbn [year month day]; [lia |].
  destruct (Z.ltb_spec 1 m); cbn [year month day].
  - pose proof (days_in_month_range y (m - 1)). lia.
  - change (days_in_month (y - 1) 12) with 31. lia.
Qed.

(** The ordinal determines the date. *)

Lemma days_before_year_mono y1 y2 :
  y1 <= y2 -> days_before_year y1 <= days_before_year y2.
Proof.
  intros H. unfold days_before_year. Z.div_mod_to_equations. lia.
Qed.

Lemma days_before_month_mono y m1 m2 :
  1 <= m1 -> m1 < m2 <= 12 ->
  days_before_month y m1 + days_in_month y m1 <= days_before_month y m2.
Proof.
  intros H1 H2.
  assert (forall n : nat, 1 <= m1 -> m1 + 1 + Z.of_nat n <= 12 ->
            days_before_month y m1 + days_in_month y m1
            <= days_before_month y (m1 + 1 + Z.of_nat n)) as G.
  { induction n as [| n IH]; intros Ha Hb.
    - rewrite Z.add_0_r, days_before_month_succ by lia. lia.
    - replace (m1 + 1 + Z.of_nat (S n)) with (m1 + 1 + Z.of_nat n + 1) by lia.
      rewrite days_before_month_succ by lia.
      pose proof (days_in_month_range y (m1 + 1 + Z.of_nat n)).
      specialize (IH Ha). lia. }
  specialize (G (Z.to_nat (m2 - m1 - 1)) H1).
  replace (m1 + 1 + Z.of_nat (Z.to_nat (m2 - m1 - 1))) with m2 in G by lia.
  apply G. lia.
Qed.

Lemma days_before_month_bounds y m :
  1 <= m <= 12 ->
  0 <= days_before_month y m
  /\ days_before_month y m + days_in_month y m
     <= 365 + (if is_leap y then 1 else 0).
Proof.
  intros Hm. month_cases m; unfold days_before_month, days_in_month;
    destruct (is_leap y); vm_compute; intuition discriminate.
Qed.

Lemma toordinal_year_bounds d :
  valid_date d ->
  days_before_year (year d) < toordinal d <= days_before_year (year d + 1).
Proof.
  intros [Hm Hk]. unfold toordinal.
  rewrite days_before_year_succ.
  pose proof (days_before_month_bounds (year d) (month d) Hm). lia.
Qed.

Lemma toordinal_inj a b :
  valid_date a -> valid_date b -> toordinal a = toordinal b -> a = b.
Proof.
  intros Ha Hb E.
  pose proof (toordinal_year_bounds a Ha) as Ba.
  pose proof (toordinal_year_bounds b Hb) as Bb.
  assert (year a = year b) as Ey.
  { destruct (Z.lt_trichotomy (year a) (year b)) as [L | [L | L]]; [| exact L |].
    - pose proof (days_before_year_mono (year a + 1) (year b)). lia.
    - pose proof (days_before_year_mono (year b + 1) (year a)). lia. }
  destruct a as [y m k], b as [y' m' k']; cbn [year month day] in *; subst y'.
  unfold toordinal in E; cbn [year month day] in E.
  destruct Ha as [Hm Hk], Hb as [Hm' Hk']; cbn [year month day] in *.
  assert (m = m') as Em.
  { destruct (Z.lt_trichotomy m m') as [L | [L | L]]; [| exact L |].
    - pose proof (days_before_month_mono y m m'). lia.
    - pose proof (days_before_month_mono y m' m). lia. }
  subst m'. f_equal. lia.
Qed.

End CalendarFacts.

Section MonthShift.


Lemma valid_minus_month d :
  valid_date d -> valid_date (date_sub d (mkDelta 1 None)).
Proof.
  destruct d as [y m k].
  unfold valid_date, date_sub, date_add, rd_neg; cbn [year month day rd_months rd_day].
  intros [Hm Hk].
  destruct (Z.ltb_spec 12 (m + - (1))); [lia |].
  destruct (Z.ltb_spec (m + - (1)) 1); cbn [year month day].
  - pose proof (days_in_month_range (y - 1) (m + - (1) + 12)). lia.
  - pose proof (days_in_month_range y (m + - (1))). lia.
Qed.

Lemma toordinal_plus_month d :
  valid_date d -> toordinal d + 28 <= toordinal (date_add d (mkDelta 1 None)).
Proof.
  destruct d as [y m k]. unfold valid_date, date_add, toordinal;
    cbn [year month day rd_months rd_day].
  intros [Hm Hk].
  destruct (Z.ltb_spec 12 (m + 1)); cbn [year month day].
  - assert (m = 12) by lia; subst m.
    rewrite days_before_year_succ.
    pose proof (days_before_month_dec y).
    change (12 + 1 - 12) with 1.
    change (days_before_month (y + 1) 1) with 0.
    change (days_in_month (y + 1) 1) with 31.
    change (days_in_month y 12) with 31 in Hk. lia.
  - destruct (Z.ltb_spec (m + 1) 1); [lia |]. cbn [year month day].
    rewrite days_before_month_succ by lia.
    pose proof (days_in_month_range y m).
    pose proof (days_in_month_range y (m + 1)). lia.
Qed.

Lemma toordinal_minus_month d :
  valid_date d -> toordinal (date_sub d (mkDelta 1 None)) + 28 <= toordinal d.
Proof.
  destruct d as [y m k]. unfold valid_date, date_sub, date_add, rd_neg, toordinal;
    cbn [year month day rd_months rd_day].
  intros [Hm Hk].
  destruct (Z.ltb_spec 12 (m + - (1))); [lia |].
  destruct (Z.ltb_spec (m + - (1)) 1); cbn [year month day].
  - assert (m = 1) by lia; subst m.
    pose proof (days_before_year_succ (y - 1)) as HY.
    replace (y - 1 + 1) with y in HY by lia.
    pose proof (days_before_month_dec (y - 1)).
    change (1 + - (1) + 12) with 12.
    change (days_in_month (y - 1) 12) with 31.
    change (days_before_month y 1) with 0. lia.
  - pose proof (days_before_month_succ y (m + - (1))) as HS.
    replace (m + - (1) + 1) with m in HS by lia.
    pose proof (days_in_month_range y (m + - (1))). lia.
Qed.

End MonthShift.

Section DateRange.


Lemma days_from_valid n d :
  valid_date d -> Forall valid_date (days_from n d).
Proof.
  revert d; induction n as [| n IH]; intros d Hd; cbn; constructor; auto.
  apply IH, valid_next_day, Hd.
Qed.

Lemma days_from_toordinal n d :
  valid_date d -> map toordinal (days_from n d) = zrange (toordinal d) n.
Proof.
  revert d; induction n as [| n IH]; intros d Hd; cbn; [reflexivity |].
  rewrite IH by (apply valid_next_day, Hd).
  rewrite toordinal_next_day by exact Hd. reflexivity.
Qed.

Lemma in_zrange x s n : In x (zrange s n) <-> s <= x < s + Z.of_nat n.
Proof.
  revert s; induction n as [| n IH]; intros s; cbn [zrange In].
  - lia.
  - rewrite IH. lia.
Qed.

Lemma in_days_from n d x :
  valid_date d -> valid_date x ->
  toordinal d <= toordinal x < toordinal d + Z.of_nat n ->
  In x (days_from n d).
Proof.
  intros Hd Hx Hr.
  assert (In (toordinal x) (map toordinal (days_from n d))) as Hin.
  { rewrite days_from_toordinal by exact Hd. apply in_zrange, Hr. }
  apply in_map_iff in Hin as (x' & E & Hin).
  pose proof (days_from_valid n d Hd) as Hv.
  rewrite List.Forall_forall in Hv.
  assert (x' = x) as <- by (apply toordinal_inj; auto).
  exact Hin.
Qed.

Lemma in_date_range lo hi x :
  valid_date lo -> valid_date x ->
  toordinal lo <= toordinal x <= toordinal hi ->
  In x (date_range lo hi).
Proof.
  intros Hlo Hx Hr. unfold date_range. apply in_days_from; auto. lia.
Qed.

Lemma date_range_toordinal lo hi x :
  valid_date lo -> In x (date_range lo hi) ->
  valid_date x /\ toordinal lo <= toordinal x <= toordinal hi.
Proof.
  intros Hlo Hin. unfold date_range in *. split.
  - pose proof (days_from_valid (Z.to_nat (toordinal hi - toordinal lo + 1)) _ Hlo) as Hv.
    rewrite List.Forall_forall in Hv. auto.
  - apply (in_map toordinal) in Hin.
    rewrite days_from_toordinal in Hin by exact Hlo.
    apply in_zrange in Hin. lia.
Qed.

End DateRange.

(** ** Interpolation of a column *)

Section Interpolation.

Local Open Scope Q_scope.

Lemma interpolate_from_length prev col :
  length (interpolate_from prev col) = length col.
Proof.
  revert prev; induction col as [| [v |] t IH]; intros prev; cbn; auto.
Qed.

Lemma next_valid_split col k v :
  next_valid col = Some (k, v) ->
  exists rest, col = repeat None k ++ Some v :: rest.
Proof.
  revert k; induction col as [| [x |] t IH]; intros k E; cbn in E.
  - discriminate.
  - injection E as <- <-. exists t. reflexivity.
  - destruct (next_valid t) as [[k' v'] |] eqn:En; [| discriminate].
    injection E as <- <-.
    destruct (IH k' eq_refl) as [rest ->]. exists rest. reflexivity.
Qed.

Lemma next_valid_in col k v : next_valid col = Some (k, v) -> In (Some v) col.
Proof.
  intros E. destruct (next_valid_split _ _ _ E) as [rest ->].
  apply in_or_app. right. left. reflexivity.
Qed.

Lemma next_valid_none col :
  next_valid col = None <-> (forall x, ~ In (Some x) col).
Proof.
  induction col as [| [x |] t IH]; cbn.
  - split; [intros _ x [] | reflexivity].
  - split; [discriminate |]. intros H. destruct (H x). left. reflexivity.
  - destruct (next_valid t) as [[k v] |].
    + split; [discriminate |]. intros H.
      assert (Some (k, v) = None) as G; [| discriminate G].
      apply IH. intros y Hy. apply (H y). right. exact Hy.
    + split; [| reflexivity]. intros _ y [Hy | Hy]; [discriminate |].
      destruct IH as [IH _]. exact (IH eq_refl y Hy).
Qed.

(** Filled cells are kept. *)
Lemma interpolate_from_keeps prev col :
  Forall2 (fun c c' => forall x, c = Some x -> c' = Some x)
          col (interpolate_from prev col).
Proof.
  revert prev; induction col as [| [v |] t IH]; intros prev; cbn;
    constructor; auto. discriminate.
Qed.

(** With a filled cell anywhere, no cell stays empty. *)
Lemma interpolate_from_filled prev col :
  is_Some prev \/ is_Some (next_valid col) ->
  Forall is_Some (interpolate_from prev col).
Proof.
  revert prev; induction col as [| [v |] t IH]; intros prev H; cbn.
  - constructor.
  - constructor; [eexists; reflexivity |]. apply IH. left. eexists; reflexivity.
  - assert (is_Some prev \/ is_Some (next_valid t)) as H'.
    { destruct H as [H | [kv H]]; [left; exact H | right].
      cbn in H. destruct (next_valid t) as [[k v] |]; [eexists; reflexivity | discriminate]. }
    constructor.
    + destruct H' as [[[dp a] ->] | [[dn b] ->]]; cbn.
      * destruct (next_valid t) as [[dn b] |]; eexists; reflexivity.
      * destruct prev as [[dp a] |]; eexists; reflexivity.
    + apply IH. destruct H' as [[[dp a] ->] | H']; [left | right; exact H'].
      eexists; reflexivity.
Qed.

(** A cell computed between two filled cells lies between their values. *)
Lemma interp_between (a b : Q) (dp dn : nat) (lo hi : Q) :
  lo <= a <= hi -> lo <= b <= hi ->
  lo <= (b - a) / inject_Z (Z.of_nat (dp + S dn)) * inject_Z (Z.of_nat dp) + a <= hi.
Proof.
  intros Ha Hb.
  set (N := inject_Z (Z.of_nat (dp + S dn))).
  set (P := inject_Z (Z.of_nat dp)).
  assert (0 <= P) as HP0.
  { unfold P. rewrite <- (Zle_Qle 0). lia. }
  assert (P < N) as HPN.
  { unfold P, N. rewrite <- Zlt_Qlt. lia. }
  assert (0 < N) as HN by lra.
  set (t := P / N).
  assert (0 <= t <= 1) as Ht.
  { unfold t. split.
    - apply Qle_shift_div_l; lra.
    - apply Qle_shift_div_r; lra. }
  assert ((b - a) / N * P + a == a + t * (b - a)) as ->.
  { unfold t. field. lra. }
  nra.
Qed.

Lemma interpolate_from_bounds (lo hi : Q) prev col :
  (forall x, In (Some x) col -> lo <= x <= hi) ->
  (forall dp a, prev = Some (dp, a) -> lo <= a <= hi) ->
  forall w, In (Some w) (interpolate_from prev col) -> lo <= w <= hi.
Proof.
  revert prev; induction col as [| [v |] t IH]; intros prev Hc Hp w Hw; cbn in Hw.
  - destruct Hw.
  - destruct Hw as [E | Hw].
    + injection E as <-. apply Hc. left. reflexivity.
    + apply (IH (Some (1%nat, v))); auto.
      * intros x Hx. apply Hc. right. exact Hx.
      * intros dp a E. injection E as <- <-. apply Hc. left. reflexivity.
  - destruct Hw as [E | Hw].
    + destruct prev as [[dp a] |], (next_valid t) as [[dn b] |] eqn:En; cbn in E;
        try discriminate; injection E as <-.
      * apply interp_between; [eapply Hp; reflexivity |].
        apply Hc. right. eapply next_valid_in, En.
      * eapply Hp; reflexivity.
      * apply Hc. right. eapply next_valid_in, En.
    + apply (IH (step_prev prev)); auto.
      * intros x Hx. apply Hc. right. exact Hx.
      * intros dp a E. destruct prev as [[dp' a'] |]; cbn in E; [| discriminate].
        injection E as <- <-. eapply Hp; reflexivity.
Qed.

(** Before the first filled cell the column takes its value. *)
Lemma interpolate_leading col k v :
  next_valid col = Some (k, v) ->
  firstn k (interpolate_column col) = repeat (Some v) k.
Proof.
  unfold interpolate_column.
  revert k; induction col as [| [x |] t IH]; intros k E; cbn in E.
  - discriminate.
  - injection E as <- <-. reflexivity.
  - destruct (next_valid t) as [[k' v'] |] eqn:En; [| discriminate].
    injection E as <- <-. cbn. rewrite En. cbn. f_equal. apply IH. reflexivity.
Qed.

Lemma next_valid_repeat_none k : next_valid (repeat None k) = None.
Proof. induction k as [| k IH]; cbn; [| rewrite IH]; reflexivity. Qed.

Lemma interpolate_from_tail dp v k :
  interpolate_from (Some (dp, v)) (repeat None k) = repeat (Some v) k.
Proof.
  revert dp; induction k as [| k IH]; intros dp; cbn; [reflexivity |].
  rewrite next_valid_repeat_none, IH. reflexivity.
Qed.

Lemma interpolate_from_app prev front v rest :
  exists front',
    length front' = length front
    /\ interpolate_from prev (front ++ Some v :: rest)
       = front' ++ Some v :: interpolate_from (Some (1%nat, v)) rest.
Proof.
  revert prev; induction front as [| [x |] t IH]; intros prev; cbn.
  - exists []. split; reflexivity.
  - destruct (IH (Some (1%nat, x))) as (f' & L & ->).
    exists (Some x :: f'). cbn. rewrite L. split; reflexivity.
  - destruct (IH (step_prev prev)) as (f' & L & ->).
    eexists (_ :: f'). cbn. rewrite L. split; reflexivity.
Qed.

(** After the last filled cell the column keeps its value. *)
Lemma interpolate_trailing col k v :
  next_valid (rev col) = Some (k, v) ->
  skipn (length col - k) (interpolate_column col) = repeat (Some v) k.
Proof.
  intros E. destruct (next_valid_split _ _ _ E) as [rest Hr].
  assert (col = rev rest ++ Some v :: repeat None k) as ->.
  { rewrite <- (rev_involutive col), Hr, rev_app_distr. cbn [rev].
    rewrite rev_repeat, <- app_assoc. reflexivity. }
  unfold interpolate_column.
  destruct (interpolate_from_app None (rev rest) v (repeat None k)) as (f' & L & ->).
  rewrite interpolate_from_tail.
  rewrite length_app. cbn [length]. rewrite repeat_length.
  replace (length (rev rest) + S k - k)%nat with (length f' + 1)%nat by lia.
  rewrite skipn_app, L.
  replace (length (rev rest) + 1 - length (rev rest))%nat with 1%nat by lia.
  rewrite skipn_all2 by lia. reflexivity.
Qed.

End Interpolation.

(** ** Seeding the daily frame *)

Section Seeding.

Lemma map_result_ok {A B} (f : A -> Result B) l bs :
  map_result f l = Ok bs <-> Forall2 (fun a b => f a = Ok b) l bs.
Proof.
  revert bs; induction l as [| a t IH]; intros bs; cbn.
  - split.
    + intros E. injection E as <-. constructor.
    + intros H. inversion H. reflexivity.
  - destruct (f a) as [b | e] eqn:Ea; cbn.
    + destruct (map_result f t) as [bs' | e] eqn:Et; cbn.
      * split.
        -- intros E. injection E as <-. constructor; [exact Ea |]. apply IH. reflexivity.
        -- intros H. inversion H as [| a' b' t' bs'' Hab Ht]; subst.
           apply IH in Ht. congruence.
      * split; [discriminate |].
        intros H. inversion H as [| a' b' t' bs'' Hab Ht]; subst.
        apply IH in Ht. discriminate.
    + split; [discriminate |].
      intros H. inversion H; subst. congruence.
Qed.

Lemma map_result_raise {A B} (f : A -> Result B) l e :
  map_result f l = Raise e -> exists a, In a l /\ f a = Raise e.
Proof.
  induction l as [| a t IH]; cbn; [discriminate |].
  destruct (f a) as [b | e'] eqn:Ea; cbn.
  - destruct (map_result f t) as [bs' | e''] eqn:Et; cbn; [discriminate |].
    intros E. injection E as ->. destruct (IH eq_refl) as (a' & Hin & Ha').
    exists a'. auto.
  - intros E. injection E as ->. exists a. auto.
Qed.

Lemma map_result_total {A B} (f : A -> Result B) l :
  (forall a, In a l -> exists b, f a = Ok b) -> exists bs, map_result f l = Ok bs.
Proof.
  intros H. destruct (map_result f l) as [bs | e] eqn:E; [eauto |].
  apply map_result_raise in E as (a & Hin & Ha).
  destruct (H a Hin) as [b Hb]. congruence.
Qed.

Lemma Forall2_length' {A B} (P : A -> B -> Prop) l1 l2 :
  Forall2 P l1 l2 -> length l1 = length l2.
Proof. induction 1; cbn; auto. Qed.

Lemma Forall2_in_combine {A B} (P : A -> B -> Prop) l1 l2 a b :
  Forall2 P l1 l2 -> In (a, b) (combine l1 l2) -> P a b.
Proof.
  induction 1 as [| x y t1 t2 Hxy Ht IH]; cbn; [intros [] |].
  intros [E | Hin]; [injection E as <- <-; exact Hxy | auto].
Qed.

Lemma Forall2_combine_in {A B} (P : A -> B -> Prop) l1 l2 a :
  Forall2 P l1 l2 -> In a l1 -> exists b, In (a, b) (combine l1 l2) /\ P a b.
Proof.
  induction 1 as [| x y t1 t2 Hxy Ht IH]; cbn; [intros [] |].
  intros [<- | Hin].
  - exists y. auto.
  - destruct (IH Hin) as (b & Hb & Pb). exists b. auto.
Qed.

Lemma Forall2_compose {A B C} (P : A -> B -> Prop) (R : B -> C -> Prop) l1 l2 l3 :
  Forall2 P l1 l2 -> Forall2 R l2 l3 ->
  Forall2 (fun a c => exists b, P a b /\ R b c) l1 l3.
Proof.
  intros H; revert l3; induction H as [| x y t1 t2 Hxy Ht IH]; intros l3 H3;
    inversion H3; subst; constructor; eauto.
Qed.

Lemma combine_fst_snd {A B} (l : list (A * B)) :
  combine (map fst l) (map snd l) = l.
Proof.
  induction l as [| [a b] t IH]; cbn; [reflexivity |]. f_equal. exact IH.
Qed.

Lemma map_fst_combine {A B} (l1 : list A) (l2 : list B) :
  length l1 = length l2 -> map fst (combine l1 l2) = l1.
Proof.
  revert l2; induction l1 as [| a t IH]; intros [| b l2] L; cbn in *;
    try discriminate; [reflexivity |]. f_equal. apply IH. lia.
Qed.

Lemma map_snd_combine {A B} (l1 : list A) (l2 : list B) :
  length l1 = length l2 -> map snd (combine l1 l2) = l2.
Proof.
  revert l2; induction l1 as [| a t IH]; intros [| b l2] L; cbn in *;
    try discriminate; [reflexivity |]. f_equal. apply IH. lia.
Qed.

(** What [average] returns. *)
Lemma average_ok averages d c :
  average averages d = Ok c <->
  (day d = 15 /\ is_Some c /\ c = averages !! month d) \/ (day d <> 15 /\ c = None).
Proof.
  unfold average. destruct (Z.eqb_spec (day d) 15) as [E | N].
  - destruct (averages !! month d) as [v |] eqn:L.
    + split.
      * intros H. injection H as <-. left.
        split; [exact E |]. split; [eexists |]; reflexivity.
      * intros [(_ & _ & ->) | (N & _)]; [reflexivity | contradiction].
    + split; [discriminate |].
      intros [(_ & [x ->] & H) | (N & _)]; [discriminate | contradiction].
  - split.
    + intros H. injection H as <-. right. auto.
    + intros [(E & _) | (_ & ->)]; [contradiction | reflexivity].
Qed.

Lemma average_raise averages d e :
  average averages d = Raise e <->
  day d = 15 /\ averages !! month d = None /\ e = KeyError (month d).
Proof.
  unfold average. destruct (Z.eqb_spec (day d) 15) as [E | N].
  - destruct (averages !! month d) as [v |] eqn:L.
    + split; [discriminate |]. intros (_ & H & _). discriminate.
    + split.
      * intros H. injection H as <-. auto.
      * intros (_ & _ & ->). reflexivity.
  - split; [discriminate |]. intros (E & _). contradiction.
Qed.

(** The seeded frame, column by column. *)
Lemma seed_daily_ok averages index rows :
  seed_daily averages index = Ok rows <->
  map fst rows = index
  /\ Forall2 (fun d c => average averages d = Ok c) index (map snd rows).
Proof.
  unfold seed_daily. split.
  - destruct (map_result (average averages) index) as [col | e] eqn:E; cbn;
      [| discriminate].
    intros H. injection H as <-. apply map_result_ok in E.
    pose proof (Forall2_length' _ _ _ E) as L.
    rewrite map_fst_combine, map_snd_combine by exact L. auto.
  - intros [<- H]. apply map_result_ok in H. rewrite H. cbn [bind].
    rewrite combine_fst_snd. reflexivity.
Qed.

Lemma seed_daily_raise averages index e :
  seed_daily averages index = Raise e ->
  exists d, In d index /\ day d = 15 /\ averages !! month d = None
            /\ e = KeyError (month d).
Proof.
  unfold seed_daily.
  destruct (map_result (average averages) index) as [col | e'] eqn:E; cbn;
    [discriminate |].
  intros H. injection H as ->.
  apply map_result_raise in E as (d & Hin & Hd).
  apply average_raise in Hd. exists d. tauto.
Qed.

Lemma seed_daily_total averages index :
  (forall d, In d index -> day d = 15 -> is_Some (averages !! month d)) ->
  exists rows, seed_daily averages index = Ok rows.
Proof.
  intros H. destruct (seed_daily averages index) as [rows | e] eqn:E; [eauto |].
  apply seed_daily_raise in E as (d & Hin & Hd & Hn & _).
  destruct (H d Hin Hd) as [x Hx]. congruence.
Qed.

Lemma interpolate_index rows : map fst (interpolate rows) = map fst rows.
Proof.
  unfold interpolate. apply map_fst_combine.
  unfold interpolate_column. rewrite interpolate_from_length, !length_map.
  reflexivity.
Qed.

Lemma interpolate_energy rows :
  map snd (interpolate rows) = interpolate_column (map snd rows).
Proof.
  unfold interpolate. apply map_snd_combine.
  unfold interpolate_column. rewrite interpolate_from_length, !length_map.
  reflexivity.
Qed.

End Seeding.

(** ** The daily curve *)

Section DailyCurve.

Variable self : SolaredgeForecast.
Variable averages : gmap Z Q.

Lemma daily_curve_ok daily :
  daily_curve self averages = Ok daily <->
  exists seeded,
    seed_daily averages (daily_index self) = Ok seeded /\ daily = interpolate seeded.
Proof.
  unfold daily_curve.
  destruct (seed_daily averages (daily_index self)) as [rows | e]; cbn.
  - split.
    + intros E. injection E as <-. eauto.
    + intros (seeded & E & ->). injection E as ->. reflexivity.
  - split; [discriminate |]. intros (seeded & E & _). discriminate.
Qed.

Lemma daily_curve_raise e :
  daily_curve self averages = Raise e <->
  seed_daily averages (daily_index self) = Raise e.
Proof.
  unfold daily_curve.
  destruct (seed_daily averages (daily_index self)) as [rows | e']; cbn.
  - split; discriminate.
  - tauto.
Qed.

Lemma first_day_valid : valid_date (startdate self) -> valid_date (first_day self).
Proof. apply valid_minus_month. Qed.

Lemma daily_index_in d :
  valid_date (startdate self) -> valid_date d ->
  toordinal (first_day self) <= toordinal d <= toordinal (last_day self) ->
  In d (daily_index self).
Proof.
  intros Hs Hd Hr. apply in_date_range; auto using first_day_valid.
Qed.

Lemma daily_index_valid d :
  valid_date (startdate self) -> In d (daily_index self) ->
  valid_date d
  /\ toordinal (first_day self) <= toordinal d <= toordinal (last_day self).
Proof.
  intros Hs Hin. apply date_range_toordinal; auto using first_day_valid.
Qed.

(** A range of at least one day has the 15th of its first month in the
    padded index. *)
Lemma daily_index_has_15th :
  valid_date (startdate self) -> valid_date (enddate self) ->
  toordinal (startdate self) <= toordinal (enddate self) ->
  exists d, In d (daily_index self) /\ day d = 15.
Proof.
  intros Hs He Hle.
  exists (mkDate (year (startdate self)) (month (startdate self)) 15).
  split; [| reflexivity].
  pose proof (toordinal_minus_month _ Hs).
  pose proof (toordinal_plus_month _ He).
  pose proof (days_in_month_range (year (startdate self)) (month (startdate self))).
  destruct Hs as [Hm Hk].
  apply daily_index_in.
  - split; assumption.
  - split; cbn [year month day]; lia.
  - unfold first_day, last_day, toordinal in *. cbn [year month day]. lia.
Qed.

Lemma curve_rows seeded :
  seed_daily averages (daily_index self) = Ok seeded ->
  interpolate seeded
  = combine (daily_index self) (interpolate_column (map snd seeded))
  /\ Forall2 (fun d c' => exists c, average averages d = Ok c
                                     /\ forall x, c = Some x -> c' = Some x)
             (daily_index self) (interpolate_column (map snd seeded)).
Proof.
  intros E. apply seed_daily_ok in E as [Ei Ec]. split.
  - unfold interpolate. rewrite Ei. reflexivity.
  - eapply Forall2_compose; [exact Ec |]. apply interpolate_from_keeps.
Qed.

End DailyCurve.

(** C2. When the monthly averages hold all twelve month numbers, the
    interpolated daily curve is produced, and on the 15th of every month
    of the padded range its value is exactly the average of that month
    number: that day carries a row with this value and no other. *)
Theorem curve_at_15th_is_seasonal_average (self : SolaredgeForecast) (averages : gmap Z Q) :
  valid_date (startdate self) ->
  (forall m, 1 <= m <= 12 -> is_Some (averages !! m)) ->
  exists daily,
    daily_curve self averages = Ok daily
    /\ forall d,
         valid_date d ->
         toordinal (first_day self) <= toordinal d <= toordinal (last_day self) ->
         day d = 15 ->
         is_Some (averages !! month d)
         /\ In (d, averages !! month d) daily
         /\ forall v, In (d, v) daily -> v = averages !! month d.
Proof.
  intros Hs Hall.
  destruct (seed_daily_total averages (daily_index self)) as [seeded E].
  { intros d Hin _. apply Hall. apply (daily_index_valid self d Hs Hin). }
  exists (interpolate seeded). split.
  { apply daily_curve_ok. eauto. }
  intros d Hd Hr H15.
  destruct (curve_rows self averages seeded E) as [-> HF].
  assert (forall v, In (d, v) (combine (daily_index self)
                                 (interpolate_column (map snd seeded))) ->
                    v = averages !! month d) as Huniq.
  { intros v Hin.
    destruct (Forall2_in_combine _ _ _ _ _ HF Hin) as (c & Hc & Hk).
    apply average_ok in Hc as [(_ & [x ->] & Hx) | (N & _)]; [| contradiction].
    rewrite <- Hx. apply Hk. reflexivity. }
  split; [apply Hall, Hd |]. split; [| exact Huniq].
  destruct (Forall2_combine_in _ _ _ d HF) as (v & Hin & _).
  { apply daily_index_in; auto. }
  rewrite <- (Huniq v Hin). exact Hin.
Qed.

(** ** Extremes of the filled cells *)

Section Extremes.

Local Open Scope Q_scope.

Lemma in_filled col x : In x (filled col) <-> In (Some x) col.
Proof.
  induction col as [| [v |] t IH]; cbn.
  - tauto.
  - rewrite IH. split; intros [H | H]; auto; left; congruence.
  - rewrite IH. split; [auto | intros [H | H]; [discriminate | exact H]].
Qed.

Lemma fold_min_le x t : 
  fold_right Qmin x t <= x /\ forall y, In y t -> fold_right Qmin x t <= y.
Proof.
  induction t as [| a t [IH1 IH2]]; cbn.
  - split; [apply Qle_refl | intros y []].
  - split.
    + eapply Qle_trans; [apply Q.le_min_r | exact IH1].
    + intros y [<- | Hy]; [apply Q.le_min_l |].
      eapply Qle_trans; [apply Q.le_min_r | auto].
Qed.

Lemma fold_max_ge x t : 
  x <= fold_right Qmax x t /\ forall y, In y t -> y <= fold_right Qmax x t.
Proof.
  induction t as [| a t [IH1 IH2]]; cbn.
  - split; [apply Qle_refl | intros y []].
  - split.
    + eapply Qle_trans; [exact IH1 | apply Q.le_max_r].
    + intros y [<- | Hy]; [apply Q.le_max_l |].
      eapply Qle_trans; [| apply Q.le_max_r]. auto.
Qed.

Lemma list_min_le l lo x : list_min l = Some lo -> In x l -> lo <= x.
Proof.
  destruct l as [| a t]; cbn; [discriminate |].
  intros E. injection E as <-. destruct (fold_min_le a t) as [H1 H2].
  intros [<- | Hx]; auto.
Qed.

Lemma list_max_ge l hi x : list_max l = Some hi -> In x l -> x <= hi.
Proof.
  destruct l as [| a t]; cbn; [discriminate |].
  intros E. injection E as <-. destruct (fold_max_ge a t) as [H1 H2].
  intros [<- | Hx]; auto.
Qed.

Lemma next_valid_some col x :
  In (Some x) col -> exists k v, next_valid col = Some (k, v).
Proof.
  intros Hx. destruct (next_valid col) as [[k v] |] eqn:En; [eauto |].
  exfalso. exact (proj1 (next_valid_none col) En x Hx).
Qed.

(** Interpolation stays within the extremes of the filled cells. *)
Lemma interpolate_column_extremes col w :
  In (Some w) (interpolate_column col) ->
  exists lo hi,
    list_min (filled col) = Some lo /\ list_max (filled col) = Some hi
    /\ lo <= w <= hi.
Proof.
  intros Hw. destruct (filled col) as [| a t] eqn:Ef.
  - exfalso.
    assert (1 <= w <= 0) as [? ?]; [| lra].
    apply (interpolate_from_bounds 1 0 None col); auto; [| discriminate].
    intros x Hx. apply in_filled in Hx. rewrite Ef in Hx. destruct Hx.
  - eexists _, _. split; [reflexivity |]. split; [reflexivity |].
    apply (interpolate_from_bounds _ _ None col); auto; [| discriminate].
    intros x Hx. apply in_filled in Hx. rewrite Ef in Hx. split.
    + apply (list_min_le (a :: t)); [reflexivity | exact Hx].
    + apply (list_max_ge (a :: t)); [reflexivity | exact Hx].
Qed.

End Extremes.

(** C10. Whenever the daily curve is produced, every seed of the frame
    is the monthly average of a 15th, and every value of the
    interpolated curve lies between the least and the greatest of the
    seeded values. *)
Theorem curve_within_seed_extremes (self : SolaredgeForecast) (averages : gmap Z Q)
    (daily : list Row) :
  daily_curve self averages = Ok daily ->
  exists seeded,
    seed_daily averages (daily_index self) = Ok seeded
    /\ (forall d x, In (d, Some x) seeded ->
          day d = 15 /\ averages !! month d = Some x)
    /\ forall d v, In (d, Some v) daily ->
         exists lo hi,
           list_min (filled (map snd seeded)) = Some lo
           /\ list_max (filled (map snd seeded)) = Some hi
           /\ (lo <= v <= hi)%Q.
Proof.
  intros E. apply daily_curve_ok in E as (seeded & Es & ->).
  exists seeded. split; [exact Es |]. split.
  - intros d x Hin. apply seed_daily_ok in Es as [Ei Ec].
    rewrite <- (combine_fst_snd seeded), Ei in Hin.
    pose proof (Forall2_in_combine _ _ _ _ _ Ec Hin) as Ha.
    apply average_ok in Ha as [(H15 & _ & Hx) | (_ & Hx)]; [auto | discriminate].
  - intros d v Hin. apply interpolate_column_extremes.
    rewrite <- interpolate_energy. apply (in_map snd) in Hin. exact Hin.
Qed.

(** C7, as the code has it. With the monthly averages the history
    gives, the forecast raises [KeyError] for an absent month number
    exactly when the padded index holds a 15th whose month number is
    absent from the averages, and it returns a result exactly when the
    month number of every 15th of the padded index is present. *)
Theorem forecast_raises_exactly_on_missing_month (self : SolaredgeForecast)
    (data : Solaredge) (now : Date) (averages : gmap Z Q) :
  seasonal_averages
    (get_energy data (production_start self data) (last_month now) MONTH)
  = Ok averages ->
  ((exists d, In d (daily_index self) /\ day d = 15 /\ averages !! month d = None)
   <-> exists m, averages !! m = None
                 /\ daily_curve self averages = Raise (KeyError m)
                 /\ get_solar_forecast self data now = Raise (KeyError m))
  /\ ((forall d, In d (daily_index self) -> day d = 15 ->
                 is_Some (averages !! month d))
      <-> exists result, get_solar_forecast self data now = Ok result).
Proof.
  intros Ea.
  assert (get_solar_forecast self data now
          = bind (daily_curve self averages)
                 (fun daily => Ok (rounded (reconcile self data now daily)))) as Eg.
  { unfold get_solar_forecast. rewrite Ea. reflexivity. }
  destruct (daily_curve self averages) as [daily | e] eqn:Ed; cbn in Eg.
  - apply daily_curve_ok in Ed as (seeded & Es & _).
    apply seed_daily_ok in Es as [_ Ec].
    assert (forall d, In d (daily_index self) -> day d = 15 ->
                      is_Some (averages !! month d)) as Hall.
    { intros d Hin H15.
      destruct (Forall2_combine_in _ _ _ d Ec Hin) as (c & _ & Hc).
      apply average_ok in Hc as [(_ & Hs & ->) | (N & _)]; [exact Hs | contradiction]. }
    split; split.
    + intros (d & Hin & H15 & Hn). destruct (Hall d Hin H15) as [x Hx]. congruence.
    + intros (m & _ & Hr & _). discriminate.
    + eauto.
    + intros _. exact Hall.
  - apply daily_curve_raise, seed_daily_raise in Ed as (d & Hin & H15 & Hn & ->).
    split; split.
    + intros _. exists (month d). auto.
    + intros _. exists d. auto.
    + intros Hall. destruct (Hall d Hin H15) as [x Hx]. congruence.
    + intros [result Hr]. congruence.
Qed.

(** C3, as the code has it. For a range of at least one day and monthly
    averages that hold the month number of every 15th of the padded
    index, the daily curve is produced; its index is every calendar day
    from first_day to last_day in date order; every row has a value;
    the rows before the first seed carry the first seed's value and the
    rows after the last seed carry the last seed's value. *)
Theorem daily_curve_spans_and_is_filled (self : SolaredgeForecast)
    (averages : gmap Z Q) :
  valid_date (startdate self) -> valid_date (enddate self) ->
  toordinal (startdate self) <= toordinal (enddate self) ->
  (forall d, In d (daily_index self) -> day d = 15 ->
             is_Some (averages !! month d)) ->
  exists seeded daily,
    seed_daily averages (daily_index self) = Ok seeded
    /\ daily_curve self averages = Ok daily
    /\ map fst daily = daily_index self
    /\ map toordinal (daily_index self)
       = zrange (toordinal (first_day self))
                (Z.to_nat (toordinal (last_day self)
                           - toordinal (first_day self) + 1))
    /\ toordinal (first_day self) < toordinal (last_day self)
    /\ (forall d, valid_date d ->
          toordinal (first_day self) <= toordinal d <= toordinal (last_day self) ->
          In d (map fst daily))
    /\ Forall (fun r => is_Some (snd r)) daily
    /\ (exists k v, next_valid (map snd seeded) = Some (k, v)
          /\ firstn k (map snd daily) = repeat (Some v) k)
    /\ (exists k v, next_valid (rev (map snd seeded)) = Some (k, v)
          /\ skipn (length daily - k) (map snd daily) = repeat (Some v) k).
Proof.
  intros Hs He Hle Hcov.
  destruct (seed_daily_total averages (daily_index self) Hcov) as [seeded E].
  exists seeded, (interpolate seeded).
  pose proof (interpolate_index seeded) as Hi.
  pose proof (interpolate_energy seeded) as Hc.
  pose proof E as E'. apply seed_daily_ok in E' as [Ei Ec].
  rewrite Ei in Hi.
  split; [exact E |]. split; [apply daily_curve_ok; eauto |].
  split; [exact Hi |].
  split; [apply days_from_toordinal, first_day_valid, Hs |].
  split.
  { pose proof (toordinal_minus_month _ Hs). pose proof (toordinal_plus_month _ He).
    unfold first_day, last_day. lia. }
  split; [intros d Hd Hr; rewrite Hi; apply daily_index_in; auto |].
  assert (exists x, In (Some x) (map snd seeded)) as [x Hx].
  { destruct (daily_index_has_15th self Hs He Hle) as (d & Hin & H15).
    destruct (Forall2_combine_in _ _ _ d Ec Hin) as (c & Hin' & Ha).
    apply average_ok in Ha as [(_ & [x ->] & _) | (N & _)]; [| contradiction].
    exists x. apply in_combine_r in Hin'. exact Hin'. }
  split.
  { assert (Forall is_Some (map snd (interpolate seeded))) as HF.
    { rewrite Hc. apply interpolate_from_filled. right.
      destruct (next_valid_some _ _ Hx) as (k & v & ->). eexists; reflexivity. }
    rewrite List.Forall_forall in *. intros r Hr. apply HF, in_map, Hr. }
  split.
  - destruct (next_valid_some _ _ Hx) as (k & v & En). exists k, v.
    split; [exact En |]. rewrite Hc. apply interpolate_leading, En.
  - apply in_rev in Hx.
    destruct (next_valid_some _ _ Hx) as (k & v & En). exists k, v.
    split; [exact En |]. rewrite Hc.
    replace (length (interpolate seeded)) with (length (map snd seeded)).
    + apply interpolate_trailing, En.
    + transitivity (length (map snd (interpolate seeded))); [| apply length_map].
      rewrite Hc. unfold interpolate_column. rewrite interpolate_from_length.
      reflexivity.
Qed.

(** ** Rounding and maximum *)

Section Rounding.

Local Open Scope Q_scope.

Lemma Qlt_bool_iff x y : Qlt_bool x y = true <-> x < y.
Proof.
  unfold Qlt_bool. rewrite negb_true_iff. split.
  - intros H. apply Qnot_le_lt. intros L. apply Qle_bool_iff in L. congruence.
  - intros H. destruct (Qle_bool y x) eqn:E; [| reflexivity].
    apply Qle_bool_iff in E. lra.
Qed.

Lemma Qlt_bool_false x y : Qlt_bool x y = false <-> y <= x.
Proof.
  unfold Qlt_bool. rewrite negb_false_iff. apply Qle_bool_iff.
Qed.

Lemma Qlt_bool_comp x x' y y' : x == x' -> y == y' -> Qlt_bool x y = Qlt_bool x' y'.
Proof.
  intros Hx Hy.
  destruct (Qlt_bool x y) eqn:E, (Qlt_bool x' y') eqn:E'; auto.
  - apply Qlt_bool_iff in E. apply Qlt_bool_false in E'. lra.
  - apply Qlt_bool_iff in E'. apply Qlt_bool_false in E. lra.
Qed.

Lemma round_comp x y : x == y -> round x = round y.
Proof.
  intros E. unfold round.
  rewrite (Qfloor_comp _ _ E).
  rewrite (Qlt_bool_comp (x - inject_Z (Qfloor y)) (y - inject_Z (Qfloor y))
             (1 # 2) (1 # 2)) by lra.
  rewrite (Qlt_bool_comp (1 # 2) (1 # 2) (x - inject_Z (Qfloor y))
             (y - inject_Z (Qfloor y))) by lra.
  reflexivity.
Qed.

Lemma round_nearest x : nearest_integer x (round x).
Proof.
  unfold nearest_integer, round.
  pose proof (Qfloor_le x) as Hl. pose proof (Qlt_floor x) as Hu.
  assert (inject_Z (Qfloor x + 1) == inject_Z (Qfloor x) + 1) as Hs.
  { rewrite inject_Z_plus. reflexivity. }
  rewrite Hs in Hu.
  destruct (Qlt_bool (x - inject_Z (Qfloor x)) (1 # 2)) eqn:E1.
  - apply Qlt_bool_iff in E1. apply Qabs_Qle_condition. lra.
  - apply Qlt_bool_false in E1.
    destruct (Qlt_bool (1 # 2) (x - inject_Z (Qfloor x))) eqn:E2.
    + apply Qabs_Qle_condition. rewrite Hs. lra.
    + apply Qlt_bool_false in E2.
      destruct (Z.even (Qfloor x)); apply Qabs_Qle_condition; rewrite ?Hs; lra.
Qed.

Lemma py_max_Qmax a b : Py.max a b = Qmax a b.
Proof.
  unfold Py.max, Qmax, GenericMinMax.gmax.
  destruct (Qlt_bool a b) eqn:E.
  - apply Qlt_bool_iff in E.
    destruct (Qcompare a b) eqn:C; try reflexivity.
    + apply Qeq_alt in C. lra.
    + apply Qgt_alt in C. lra.
  - apply Qlt_bool_false in E.
    destruct (Qcompare a b) eqn:C; try reflexivity.
    apply Qlt_alt in C. lra.
Qed.

End Rounding.

(** ** Slices of the daily frame *)

Section Slices.

Lemma nondecreasing_cons a l :
  nondecreasing (a :: l) = true ->
  Forall (fun x => a <= x) l /\ nondecreasing l = true.
Proof.
  revert a; induction l as [| b t IH]; intros a H.
  - split; [constructor | reflexivity].
  - cbn [nondecreasing] in H. apply andb_true_iff in H as [Hab Ht].
    apply Z.leb_le in Hab. split; [| exact Ht].
    constructor; [exact Hab |].
    destruct (IH b Ht) as [Hb _].
    eapply List.Forall_impl; [| exact Hb]. cbn. intros x Hx. lia.
Qed.

Lemma sorted_by_date_cons r rows :
  sorted_by_date (r :: rows) ->
  Forall (fun r' => toordinal (fst r) <= toordinal (fst r')) rows
  /\ sorted_by_date rows.
Proof.
  unfold sorted_by_date. cbn [map]. intros H.
  apply nondecreasing_cons in H as [HF Hs]. split; [| exact Hs].
  rewrite List.Forall_forall in *. intros r' Hr'.
  apply HF. apply (in_map (fun r => toordinal (fst r))), Hr'.
Qed.

Lemma filter_none {A} (p : A -> bool) l :
  Forall (fun x => p x = false) l -> List.filter p l = [].
Proof.
  induction 1 as [| x t Hx Ht IH]; cbn; [reflexivity |]. rewrite Hx. exact IH.
Qed.

Lemma take_while_filter a b rows :
  sorted_by_date rows ->
  Forall (fun r => toordinal a <= toordinal (fst r)) rows ->
  take_while (fun r => date_leb (fst r) b) rows = List.filter (in_range a b) rows.
Proof.
  induction rows as [| r t IH]; intros Hs Ha; [reflexivity |].
  apply sorted_by_date_cons in Hs as [Hr Hs].
  inversion Ha as [| ? ? Har Hat]; subst.
  cbn [take_while List.filter].
  assert (in_range a b r = date_leb (fst r) b) as ->.
  { unfold in_range, date_leb. rewrite (proj2 (Z.leb_le _ _) Har). reflexivity. }
  unfold date_leb at 1 3.
  destruct (Z.leb_spec (toordinal (fst r)) (toordinal b)) as [L | L].
  - f_equal. apply IH; assumption.
  - symmetry. apply filter_none.
    eapply List.Forall_impl; [| exact Hr]. cbn. intros r' Hr'.
    unfold in_range, date_leb. apply andb_false_iff. right. apply Z.leb_gt. lia.
Qed.

(** On a frame sorted by date, [loc] selects the rows dated in the range. *)
Lemma loc_filter a b rows :
  sorted_by_date rows -> loc a b rows = List.filter (in_range a b) rows.
Proof.
  unfold loc. induction rows as [| r t IH]; intros Hs; [reflexivity |].
  pose proof Hs as Hs'. apply sorted_by_date_cons in Hs' as [Hr Ht].
  cbn [drop_while List.filter]. unfold date_ltb at 1.
  destruct (Z.ltb_spec (toordinal (fst r)) (toordinal a)) as [L | L].
  - assert (in_range a b r = false) as ->.
    { unfold in_range, date_leb. apply andb_false_iff. left. apply Z.leb_gt, L. }
    apply IH, Ht.
  - apply (take_while_filter a b (r :: t) Hs).
    constructor; [exact L |].
    eapply List.Forall_impl; [| exact Hr]. cbn. intros r' Hr'. lia.
Qed.

Lemma loc_slice_sum a b rows (p : Date -> bool) :
  sorted_by_date rows ->
  (forall d, p d = date_leb a d && date_leb d b) ->
  energy_sum (loc a b rows) = slice_sum p rows.
Proof.
  intros Hs Hp. rewrite loc_filter by exact Hs. unfold slice_sum.
  f_equal. apply filter_ext. intros r. unfold in_range. symmetry. apply Hp.
Qed.

End Slices.

(** ** The curve read day by day *)

Section DaySums.

Local Open Scope Q_scope.

Lemma increasing_cons a l :
  increasing (a :: l) = true ->
  Forall (fun x => (a < x)%Z) l /\ increasing l = true.
Proof.
  revert a; induction l as [| b t IH]; intros a H.
  - split; [constructor | reflexivity].
  - cbn [increasing] in H. apply andb_true_iff in H as [Hab Ht].
    apply Z.ltb_lt in Hab. split; [| exact Ht].
    constructor; [exact Hab |].
    destruct (IH b Ht) as [Hb _].
    eapply List.Forall_impl; [| exact Hb]. cbn. intros x Hx. lia.
Qed.

Lemma increasing_nondecreasing l : increasing l = true -> nondecreasing l = true.
Proof.
  induction l as [| a t IH]; intros H; [reflexivity |].
  destruct t as [| b t']; [reflexivity |].
  cbn [increasing] in H. apply andb_true_iff in H as [Hab Ht].
  cbn [nondecreasing]. apply andb_true_iff. split; [| exact (IH Ht)].
  apply Z.ltb_lt in Hab. apply Z.leb_le. lia.
Qed.

Lemma one_row_a_day_sorted rows : one_row_a_day rows -> sorted_by_date rows.
Proof. apply increasing_nondecreasing. Qed.

Lemma one_row_a_day_cons r rows :
  one_row_a_day (r :: rows) ->
  Forall (fun r' => (toordinal (fst r) < toordinal (fst r'))%Z) rows
  /\ one_row_a_day rows.
Proof.
  unfold one_row_a_day. cbn [map]. intros H.
  apply increasing_cons in H as [HF Hs]. split; [| exact Hs].
  rewrite List.Forall_forall in *. intros r' Hr'.
  apply HF. apply (in_map (fun r => toordinal (fst r))), Hr'.
Qed.

Lemma curve_value_absent rows k :
  Forall (fun r => toordinal (fst r) <> k) rows -> curve_value rows k = 0.
Proof.
  induction 1 as [| [d c] t Hd Ht IH]; [reflexivity |].
  cbn [curve_value]. cbn [fst] in Hd.
  destruct (Z.eqb_spec (toordinal d) k); [contradiction | exact IH].
Qed.

Lemma Qsum_point (f : Z -> Q) (x : Q) (k0 s : Z) (n : nat) :
  f k0 == 0 ->
  Qsum (map (fun k => if (k0 =? k)%Z then x else f k) (zrange s n))
  == (if ((s <=? k0) && (k0 <? s + Z.of_nat n))%Z then x else 0)
     + Qsum (map f (zrange s n)).
Proof.
  intros H0. revert s; induction n as [| n IH]; intros s.
  - cbn [zrange map Qsum].
    destruct (Z.leb_spec s k0), (Z.ltb_spec k0 (s + Z.of_nat 0)); cbn [andb];
      try lia; ring.
  - cbn [zrange map Qsum]. rewrite (IH (s + 1)%Z).
    destruct (Z.eqb_spec k0 s) as [-> | N].
    + destruct (Z.leb_spec (s + 1) s), (Z.leb_spec s s),
        (Z.ltb_spec s (s + Z.of_nat (S n))); cbn [andb]; try lia.
      rewrite H0. ring.
    + destruct (Z.leb_spec (s + 1) k0), (Z.leb_spec s k0),
        (Z.ltb_spec k0 (s + 1 + Z.of_nat n)),
        (Z.ltb_spec k0 (s + Z.of_nat (S n))); cbn [andb]; try lia; ring.
Qed.

Lemma Qsum_ext {A} (f g : A -> Q) l :
  (forall x, f x = g x) -> Qsum (map f l) = Qsum (map g l).
Proof. intros H. induction l as [| a t IH]; cbn; [| rewrite H, IH]; reflexivity. Qed.

(** Summing the curve day by day is summing the rows of those days. *)
Lemma curve_sum_rows rows lo hi :
  one_row_a_day rows ->
  curve_sum rows lo hi == energy_sum (List.filter (between lo hi) rows).
Proof.
  unfold curve_sum. induction rows as [| [d c] t IH]; intros Hs.
  - cbn [List.filter energy_sum].
    induction (zrange lo (Z.to_nat (hi - lo + 1))) as [| k l IHl]; cbn in *;
      [reflexivity | rewrite IHl; ring].
  - apply one_row_a_day_cons in Hs as [Hlt Ht]. cbn [fst] in Hlt.
    specialize (IH Ht).
    rewrite (Qsum_ext (curve_value ((d, c) :: t))
               (fun k => if (toordinal d =? k)%Z
                         then match c with Some v => v | None => 0 end
                         else curve_value t k)) by reflexivity.
    rewrite Qsum_point.
    2:{ rewrite curve_value_absent; [reflexivity |].
        eapply List.Forall_impl; [| exact Hlt]. cbn. intros r Hr. lia. }
    rewrite IH. cbn [List.filter]. unfold between at 2. cbn [fst].
    destruct (Z.leb_spec lo (toordinal d)), (Z.leb_spec (toordinal d) hi),
      (Z.ltb_spec (toordinal d) (lo + Z.of_nat (Z.to_nat (hi - lo + 1))));
      cbn [andb]; try lia; destruct c; cbn [energy_sum]; ring.
Qed.

Lemma curve_sum_loc rows a b :
  one_row_a_day rows ->
  energy_sum (loc a b rows) == curve_sum rows (toordinal a) (toordinal b).
Proof.
  intros Hs. rewrite loc_filter by apply one_row_a_day_sorted, Hs.
  rewrite curve_sum_rows by exact Hs. reflexivity.
Qed.

Lemma curve_sum_one rows k : curve_sum rows k k == curve_value rows k.
Proof.
  unfold curve_sum. replace (k - k + 1)%Z with 1%Z by lia.
  change (Z.to_nat 1) with 1%nat. cbn [zrange map Qsum]. ring.
Qed.

Lemma curve_value_loc rows d :
  one_row_a_day rows ->
  energy_sum (loc d d rows) == curve_value rows (toordinal d).
Proof. intros Hs. rewrite curve_sum_loc by exact Hs. apply curve_sum_one. Qed.

End DaySums.

(** C1. On a daily curve with one row a day, in the order of the days,
    the reconciler returns exactly: estimated = the value of the curve
    at today plus the sum, day by day, of its values over the days from
    tomorrow through enddate; produced = the yearly-range energy / 1000;
    progress = (produced - today's energy / 1000 - the sum, day by day,
    of the curve over startdate through yesterday) + max(0, today's
    energy / 1000 - the value of the curve at today); forecast =
    estimated + produced. The quantities the reconciler keeps are these
    unrounded values, and each output is the unrounded quantity rounded
    once, to a nearest integer. *)
Theorem reconciler_outputs (self : SolaredgeForecast) (data : Solaredge)
    (now : Date) (daily : list Row) :
  valid_date now -> one_row_a_day daily ->
  let wh_year := get_time_frame_energy data (startdate self) (enddate self) YEAR in
  let wh_today := get_time_frame_energy data now (next_day now) DAY in
  let at_today := curve_value daily (toordinal now) in
  let future := curve_sum daily (toordinal now + 1) (toordinal (enddate self)) in
  let past := curve_sum daily (toordinal (startdate self)) (toordinal now - 1) in
  let estimated := (at_today + future)%Q in
  let produced := (wh_year / 1000)%Q in
  let progress :=
    ((produced - wh_today / 1000 - past)
     + Qmax 0 (wh_today / 1000 - at_today))%Q in
  let total := (estimated + produced)%Q in
  rounded (reconcile self data now daily)
  = mkData (round produced) (round estimated) (round total) (round progress)
  /\ (energy_production_until_now (reconcile self data now daily) == produced
      /\ energy_estimated_period (reconcile self data now daily) == estimated
      /\ forecast (reconcile self data now daily) == total
      /\ energy_production_progress (reconcile self data now daily) == progress)%Q
  /\ nearest_integer produced (round produced)
  /\ nearest_integer estimated (round estimated)
  /\ nearest_integer total (round total)
  /\ nearest_integer progress (round progress).
Proof.
  intros Hnow Hs. cbv zeta.
  pose proof (curve_value_loc daily now Hs) as Et.
  pose proof (curve_sum_loc daily (next_day now) (enddate self) Hs) as Ef.
  pose proof (curve_sum_loc daily (startdate self) (prev_day now) Hs) as Ep.
  rewrite toordinal_next_day in Ef by exact Hnow.
  rewrite toordinal_prev_day in Ep by exact Hnow.
  set (wh_year := get_time_frame_energy data (startdate self) (enddate self) YEAR).
  set (wh_today := get_time_frame_energy data now (next_day now) DAY).
  assert (energy_production_until_now (reconcile self data now daily)
          == wh_year / 1000)%Q as H1 by reflexivity.
  assert (energy_estimated_period (reconcile self data now daily)
          == curve_value daily (toordinal now)
             + curve_sum daily (toordinal now + 1) (toordinal (enddate self)))%Q as H2.
  { unfold reconcile. cbn [energy_estimated_period]. rewrite Et, Ef. reflexivity. }
  assert (forecast (reconcile self data now daily)
          == curve_value daily (toordinal now)
             + curve_sum daily (toordinal now + 1) (toordinal (enddate self))
             + wh_year / 1000)%Q as H3.
  { unfold reconcile. cbn [forecast]. rewrite Et, Ef. reflexivity. }
  assert (energy_production_progress (reconcile self data now daily)
          == (wh_year / 1000 - wh_today / 1000
              - curve_sum daily (toordinal (startdate self)) (toordinal now - 1))
             + Qmax 0 (wh_today / 1000 - curve_value daily (toordinal now)))%Q as H4.
  { unfold reconcile. cbn [energy_production_progress]. rewrite py_max_Qmax, Ep.
    fold wh_year wh_today.
    apply Qplus_comp; [reflexivity |].
    destruct (Q.max_spec 0 (wh_today / 1000 - energy_sum (loc now now daily)))
      as [[L ->] | [L ->]];
      destruct (Q.max_spec 0 (wh_today / 1000 - curve_value daily (toordinal now)))
        as [[L' ->] | [L' ->]]; lra. }
  split.
  { unfold rounded. f_equal; apply round_comp; assumption. }
  split; [repeat split; assumption |].
  repeat split; apply round_nearest.
Qed.

(** C8. With today's actual production the energy the client reports
    for today / 1000 and today's estimate the value of the curve at
    today, the extra production of today is max(0, actual - estimate):
    it is never negative, it is 0 when the actual production does not
    exceed the estimate, and the excess otherwise. *)
Theorem today_extra_is_clamped (self : SolaredgeForecast) (data : Solaredge)
    (now : Date) (daily : list Row) :
  one_row_a_day daily ->
  let actual := (get_time_frame_energy data now (next_day now) DAY / 1000)%Q in
  let estimate := curve_value daily (toordinal now) in
  let extra := energy_produced_today_extra (reconcile self data now daily) in
  (extra == Qmax 0 (actual - estimate))%Q
  /\ (0 <= extra)%Q
  /\ ((actual <= estimate /\ extra == 0)
      \/ (estimate < actual /\ extra == actual - estimate))%Q.
Proof.
  intros Hs. cbv zeta.
  pose proof (curve_value_loc daily now Hs) as Et.
  unfold reconcile. cbn [energy_produced_today_extra].
  set (actual := (get_time_frame_energy data now (next_day now) DAY / 1000)%Q).
  unfold Py.max.
  destruct (Qlt_bool 0 (actual - energy_sum (loc now now daily))) eqn:E.
  - apply Qlt_bool_iff in E.
    destruct (Q.max_spec 0 (actual - curve_value daily (toordinal now)))
      as [[L ->] | [L ->]]; (split; [lra |]); (split; [lra |]);
      right; split; lra.
  - apply Qlt_bool_false in E.
    destruct (Q.max_spec 0 (actual - curve_value daily (toordinal now)))
      as [[L ->] | [L ->]]; (split; [lra |]); (split; [lra |]);
      left; split; lra.
Qed.

(** ** Monthly averages *)

Section GroupBy.

Local Open Scope Q_scope.

Lemma group_add_tally (acc : gmap Z (Q * Z)) k v k0 s n :
  tally (acc !! k0) s n ->
  tally (group_add acc (k, v) !! k0)
        (if (k =? k0)%Z then s + v else s)
        (if (k =? k0)%Z then (n + 1)%Z else n).
Proof.
  unfold group_add. intros H.
  destruct (Z.eqb_spec k k0) as [-> | N].
  - destruct (acc !! k0) as [[s' n'] |] eqn:E; rewrite lookup_insert_eq; cbn in *.
    + destruct H as (Hs & -> & Hn). repeat split; try lia. rewrite Hs. reflexivity.
    + destruct H as [-> Hs]. repeat split; try lia. rewrite Hs. ring.
  - destruct (acc !! k) as [[s' n'] |]; rewrite lookup_insert_ne by exact N;
      exact H.
Qed.

Lemma tally_comp cell s s' n : s == s' -> tally cell s n -> tally cell s' n.
Proof.
  intros E. destruct cell as [[a b] |]; cbn.
  - intros (H1 & H2 & H3). repeat split; auto. rewrite H1. exact E.
  - intros [H1 H2]. split; auto. rewrite <- E. exact H2.
Qed.

Lemma fold_group_add_tally rows (acc : gmap Z (Q * Z)) k0 s n :
  tally (acc !! k0) s n ->
  tally (fold_left group_add rows acc !! k0)
        (s + Qsum (group_values k0 rows))
        (n + Z.of_nat (length (group_values k0 rows))).
Proof.
  revert acc s n; induction rows as [| [k v] t IH]; intros acc s n H.
  - cbn. rewrite Z.add_0_r. apply (tally_comp _ s); [ring | exact H].
  - cbn [fold_left]. pose proof (group_add_tally acc k v k0 s n H) as H'.
    apply IH in H'. unfold group_values in *. cbn [List.filter fst].
    destruct (Z.eqb_spec k k0) as [-> | N].
    + cbn [map snd length Qsum].
      replace (n + Z.of_nat (S (length (map snd (List.filter (fun kv => (fst kv =? k0)%Z) t)))))%Z
        with (n + 1 + Z.of_nat (length (map snd (List.filter (fun kv => (fst kv =? k0)%Z) t))))%Z
        by lia.
      eapply tally_comp; [| exact H']. ring.
    + exact H'.
Qed.

(** [groupby(..).mean()] is, per key, the mean of the values of the key. *)
Lemma groupby_mean_lookup rows k :
  match groupby_mean rows !! k with
  | Some avg => group_values k rows <> [] /\ avg == mean (group_values k rows)
  | None => group_values k rows = []
  end.
Proof.
  unfold groupby_mean. rewrite lookup_fmap.
  pose proof (fold_group_add_tally rows ∅ k 0 0%Z) as H.
  rewrite lookup_empty in H. specialize (H (conj eq_refl (Qeq_refl 0))).
  destruct (fold_left group_add rows ∅ !! k) as [[s n] |]; cbn in *.
  - destruct H as (Hs & Hn & Hp). split.
    + intros E. rewrite E in Hp. cbn in Hp. lia.
    + unfold mean. rewrite Hs, Hn. cbn [Z.add]. 
      assert (0 + Qsum (group_values k rows) == Qsum (group_values k rows)) as -> by ring.
      reflexivity.
  - destruct (group_values k rows); [reflexivity | cbn in H; lia].
Qed.

End GroupBy.

Section SeasonalAverages.

Lemma retained_app l1 l2 : retained (l1 ++ l2) = retained l1 ++ retained l2.
Proof. unfold retained. apply List.filter_app. Qed.

Lemma retained_zero r l : (ev_value r == 0)%Q -> retained (r :: l) = retained l.
Proof.
  intros H. unfold retained. cbn [List.filter].
  rewrite (Qeq_eq_bool _ _ H). reflexivity.
Qed.

Lemma seasonal_averages_ok values :
  values <> [] ->
  seasonal_averages values = Ok (groupby_mean (month_rows (retained values))).
Proof. destruct values; [congruence | reflexivity]. Qed.

Lemma group_values_month_rows m df :
  group_values m (month_rows df)
  = map daily_energy (List.filter (fun r => month (ev_date r) =? m) df).
Proof.
  unfold group_values, month_rows.
  induction df as [| r t IH]; cbn; [reflexivity |].
  destruct (month (ev_date r) =? m); cbn; rewrite IH; reflexivity.
Qed.

End SeasonalAverages.

(** C5. For a history that is not empty the monthly averages are
    produced, and for every month number the average is the arithmetic
    mean, over the retained records of that month number, of
    (Wh / days of that calendar month) / 1000; a month number without a
    retained record has no average. *)
Theorem seasonal_average_is_mean_of_daily_averages (values : list EnergyValue) :
  values <> [] ->
  exists averages,
    seasonal_averages values = Ok averages
    /\ forall m,
         let observed :=
           map (fun r =>
                  (ev_value r
                   / inject_Z (days_in_month (year (ev_date r)) (month (ev_date r)))
                   / 1000)%Q)
               (List.filter (fun r => month (ev_date r) =? m) (retained values)) in
         match averages !! m with
         | Some avg =>
             observed <> []
             /\ (avg == Qsum observed / inject_Z (Z.of_nat (length observed)))%Q
         | None => observed = []
         end.
Proof.
  intros Hne. eexists. split; [apply seasonal_averages_ok, Hne |].
  intros m. cbv zeta.
  pose proof (groupby_mean_lookup (month_rows (retained values)) m) as H.
  rewrite group_values_month_rows in H. exact H.
Qed.

(** C4. A record whose energy is 0 is dropped before averaging: the
    history with the record gives the averages of the history without
    it. The history [Jan: 0 Wh, Jan of the year before: 3100 Wh] gives
    the month-1 average 3100 / 31 / 1000. *)
Theorem zero_months_are_excluded (before after : list EnergyValue) (r : EnergyValue) :
  (ev_value r == 0)%Q ->
  retained (before ++ r :: after) = retained (before ++ after)
  /\ seasonal_averages (before ++ r :: after)
     = Ok (groupby_mean (month_rows (retained (before ++ after))))
  /\ exists averages avg,
       seasonal_averages [mkValue (mkDate 2023 1 1) 0; mkValue (mkDate 2022 1 1) 3100]
       = Ok averages
       /\ averages !! 1 = Some avg
       /\ (avg == 3100 / 31 / 1000)%Q.
Proof.
  intros Hz.
  assert (retained (before ++ r :: after) = retained (before ++ after)) as E.
  { rewrite !retained_app, (retained_zero r after Hz). reflexivity. }
  split; [exact E |]. split.
  - rewrite seasonal_averages_ok.
    + rewrite E. reflexivity.
    + destruct before; discriminate.
  - eexists _, _. split; [reflexivity |]. split; [vm_compute; reflexivity |].
    vm_compute. reflexivity.
Qed.

(** ** A constant curve *)

Section ConstantCurve.

Lemma nondecreasing_zrange s n : nondecreasing (zrange s n) = true.
Proof.
  revert s; induction n as [| n IH]; intros s; [reflexivity |].
  cbn [zrange nondecreasing]. specialize (IH (s + 1)).
  destruct n as [| n]; [reflexivity |].
  cbn [zrange] in *. rewrite IH, andb_true_r. apply Z.leb_le. lia.
Qed.

Lemma filter_zrange_length a b s n :
  length (List.filter (fun z => (a <=? z) && (z <=? b)) (zrange s n))
  = Z.to_nat (Z.min (s + Z.of_nat n - 1) b - Z.max s a + 1).
Proof.
  revert s; induction n as [| n IH]; intros s.
  - cbn. lia.
  - cbn [zrange List.filter]. specialize (IH (s + 1)).
    destruct (Z.leb_spec a s), (Z.leb_spec s b); cbn [andb length]; lia.
Qed.

Lemma filter_map_length {A B} (f : A -> B) (p : B -> bool) l :
  length (List.filter (fun x => p (f x)) l) = length (List.filter p (map f l)).
Proof.
  induction l as [| x t IH]; cbn; [reflexivity |].
  destruct (p (f x)); cbn; rewrite IH; reflexivity.
Qed.

Variable self : SolaredgeForecast.
Variable averages : gmap Z Q.
Variable daily : list Row.
Hypothesis Hstart : valid_date (startdate self).
Hypothesis Hdaily : daily_curve self averages = Ok daily.

Lemma daily_curve_index : map fst daily = daily_index self.
Proof.
  apply daily_curve_ok in Hdaily as (seeded & E & ->).
  rewrite interpolate_index. apply seed_daily_ok in E. tauto.
Qed.

Lemma daily_curve_ordinals :
  map (fun r => toordinal (fst r)) daily
  = zrange (toordinal (first_day self))
           (Z.to_nat (toordinal (last_day self) - toordinal (first_day self) + 1)).
Proof.
  rewrite <- (map_map fst toordinal), daily_curve_index.
  apply days_from_toordinal, first_day_valid, Hstart.
Qed.

(** The curve the forecast builds is sorted by date. *)
Lemma daily_curve_sorted : sorted_by_date daily.
Proof.
  unfold sorted_by_date. rewrite daily_curve_ordinals. apply nondecreasing_zrange.
Qed.

(** The number of rows of a slice of the curve. *)
Lemma daily_slice_length a b :
  toordinal (first_day self) <= toordinal (last_day self) ->
  length (loc a b daily)
  = Z.to_nat (Z.min (toordinal (last_day self)) (toordinal b)
              - Z.max (toordinal (first_day self)) (toordinal a) + 1).
Proof.
  intros Hle. rewrite loc_filter by apply daily_curve_sorted.
  etransitivity.
  { apply (filter_map_length (fun r => toordinal (fst r))
             (fun z => (toordinal a <=? z) && (z <=? toordinal b)) daily). }
  rewrite daily_curve_ordinals, filter_zrange_length. f_equal. lia.
Qed.

End ConstantCurve.

Section ConstantSum.

Local Open Scope Q_scope.

Lemma energy_sum_constant x rows :
  constant_rows x rows ->
  energy_sum rows == x * inject_Z (Z.of_nat (length rows)).
Proof.
  induction 1 as [| [d c] t (w & E & Hw) Ht IH].
  - cbn. ring.
  - cbn in E. subst c. cbn [energy_sum length]. rewrite IH, Hw.
    rewrite Nat2Z.inj_succ. unfold Z.succ. rewrite inject_Z_plus. ring.
Qed.

Lemma constant_rows_filter x p rows :
  constant_rows x rows -> constant_rows x (List.filter p rows).
Proof.
  unfold constant_rows. rewrite !List.Forall_forall. intros H r Hr.
  apply filter_In in Hr as [Hr _]. auto.
Qed.

End ConstantSum.

Section ConstantAverages.

Local Open Scope Q_scope.

Variable x : Q.
Variable self : SolaredgeForecast.
Variable averages : gmap Z Q.
Hypothesis Hstart : valid_date (startdate self).
Hypothesis Hconst :
  forall m, (1 <= m <= 12)%Z -> exists v, averages !! m = Some v /\ v == x.

Lemma constant_seeds seeded :
  seed_daily averages (daily_index self) = Ok seeded ->
  forall c, In (Some c) (map snd seeded) -> x <= c <= x.
Proof.
  intros E c Hc. apply seed_daily_ok in E as [Ei Ec].
  apply List.in_map_iff in Hc as ([d c'] & Hs & Hin). cbn in Hs. subst c'.
  assert (In (d, Some c) (combine (daily_index self) (map snd seeded))) as Hin'.
  { rewrite <- Ei, combine_fst_snd. exact Hin. }
  pose proof (Forall2_in_combine _ _ _ _ _ Ec Hin') as Ha.
  apply in_combine_l in Hin'.
  destruct (daily_index_valid self d Hstart Hin') as [[Hm _] _].
  destruct (Hconst _ Hm) as (v & Hv & Hx).
  apply average_ok in Ha as [(_ & _ & Hs) | (_ & Hs)]; [| discriminate].
  rewrite Hv in Hs. injection Hs as ->. lra.
Qed.

End ConstantAverages.

(** C9, as the code has it. When the monthly averages are [x] for all
    twelve month numbers, the daily curve of a range of at least one day
    is produced and every one of its days has the value [x]; the
    forecast returns a result, and when today lies in the requested
    range its estimate is [x] times the number of days from today
    through enddate, rounded (so [x] times the days of the range when
    today is its first day). *)
Theorem constant_averages_give_constant_curve (x : Q) (self : SolaredgeForecast)
    (data : Solaredge) (now : Date) (averages : gmap Z Q) :
  valid_date (startdate self) -> valid_date (enddate self) -> valid_date now ->
  toordinal (startdate self) <= toordinal (enddate self) ->
  seasonal_averages
    (get_energy data (production_start self data) (last_month now) MONTH)
  = Ok averages ->
  (forall m, 1 <= m <= 12 -> exists v, averages !! m = Some v /\ (v == x)%Q) ->
  exists daily result,
    daily_curve self averages = Ok daily
    /\ constant_rows x daily
    /\ get_solar_forecast self data now = Ok result
    /\ (toordinal (startdate self) <= toordinal now <= toordinal (enddate self) ->
        solar_energy_estimated result
        = round (x * inject_Z (toordinal (enddate self) - toordinal now + 1))).
Proof.
  intros Hs He Hnow Hle Ea Hconst.
  destruct (seed_daily_total averages (daily_index self)) as [seeded E].
  { intros d Hin _. destruct (daily_index_valid self d Hs Hin) as [[Hm _] _].
    destruct (Hconst _ Hm) as (v & -> & _). eexists; reflexivity. }
  assert (daily_curve self averages = Ok (interpolate seeded)) as Ed.
  { apply daily_curve_ok. eauto. }
  set (daily := interpolate seeded) in *.
  assert (constant_rows x daily) as Hc.
  { assert (exists c, In (Some c) (map snd seeded)) as [c0 Hc0].
    { destruct (daily_index_has_15th self Hs He Hle) as (d & Hin & H15).
      pose proof E as E'. apply seed_daily_ok in E' as [_ Ec].
      destruct (Forall2_combine_in _ _ _ d Ec Hin) as (c & Hin' & Ha).
      apply average_ok in Ha as [(_ & [c0 ->] & _) | (N & _)]; [| contradiction].
      exists c0. apply in_combine_r in Hin'. exact Hin'. }
    assert (Forall is_Some (map snd daily)) as HF.
    { unfold daily. rewrite interpolate_energy. apply interpolate_from_filled. right.
      destruct (next_valid_some _ _ Hc0) as (k & v & ->). eexists; reflexivity. }
    unfold constant_rows. rewrite List.Forall_forall in *. intros r Hr.
    destruct (HF (snd r) (in_map snd _ _ Hr)) as [w Hw].
    exists w. split; [exact Hw |].
    assert (x <= w <= x)%Q as [? ?]; [| lra].
    apply (interpolate_from_bounds x x None (map snd seeded)).
    - apply (constant_seeds x self averages Hs Hconst seeded E).
    - discriminate.
    - fold (interpolate_column (map snd seeded)).
      rewrite <- interpolate_energy, <- Hw. apply in_map, Hr. }
  exists daily, (rounded (reconcile self data now daily)).
  split; [exact Ed |]. split; [exact Hc |]. split.
  { unfold get_solar_forecast. rewrite Ea. cbn [bind]. rewrite Ed. reflexivity. }
  intros Hin. unfold rounded. cbn [solar_energy_estimated].
  apply round_comp. unfold reconcile. cbn [energy_estimated_period].
  pose proof (daily_curve_sorted self averages daily Hs Ed) as Hsorted.
  pose proof (toordinal_minus_month _ Hs) as Hlo.
  pose proof (toordinal_plus_month _ He) as Hhi.
  fold (first_day self) in Hlo. fold (last_day self) in Hhi.
  pose proof (toordinal_next_day _ Hnow) as Hnext.
  rewrite (energy_sum_constant x (loc now now daily)).
  2:{ rewrite loc_filter by exact Hsorted. apply constant_rows_filter, Hc. }
  rewrite (energy_sum_constant x (loc (next_day now) (enddate self) daily)).
  2:{ rewrite loc_filter by exact Hsorted. apply constant_rows_filter, Hc. }
  rewrite !(daily_slice_length self averages daily Hs Ed) by lia.
  rewrite <- Qmult_plus_distr_r, <- inject_Z_plus.
  apply Qmult_comp; [reflexivity |]. 
  apply inject_Z_injective. lia.
Qed.

(** ** The start of production *)

Section ProductionStart.

Lemma plus_month_first d :
  valid_date d -> date_add d (mkDelta 1 (Some 1)) = first_of_next_month d.
Proof.
  destruct d as [y m k]. intros [Hm Hk]; cbn [year month day] in *.
  unfold date_add, first_of_next_month; cbn [year month day rd_months rd_day].
  destruct (Z.eqb_spec m 12) as [-> | N].
  - reflexivity.
  - destruct (Z.ltb_spec 12 (m + 1)); [lia |].
    destruct (Z.ltb_spec (m + 1) 1); [lia |].
    pose proof (days_in_month_range y (m + 1)). f_equal. lia.
Qed.

(** An explicit production start moves to the next month unless it is
    the first of a month. *)
Lemma explicit_production_start start end_ raw data :
  valid_date raw ->
  production_start (init start end_ (Some raw)) data
  = if 1 <? day raw then first_of_next_month raw else raw.
Proof.
  intros Hv. unfold production_start, init, init_startdate_production.
  cbn [startdate_production]. rewrite plus_month_first by exact Hv. reflexivity.
Qed.

(** A production start taken from the client always moves to the next
    month. *)
Lemma derived_production_start start end_ data :
  valid_date (get_data_period data) ->
  production_start (init start end_ None) data
  = first_of_next_month (get_data_period data).
Proof.
  intros Hv. unfold production_start, init, init_startdate_production.
  cbn [startdate_production]. apply plus_month_first, Hv.
Qed.

End ProductionStart.

(** C6. With the client reporting 2022-02-01 as the first day of data
    and no explicit production start, the resolved start is 2022-03-01:
    the month that is already aligned is skipped. The explicit path
    keeps 2022-02-01, and moves 2022-01-15 to 2022-02-01. *)
Theorem derived_start_skips_aligned_month (start end_ : Date)
    (history : list EnergyValue) (wh_year wh_today : Q) :
  let data := provider (mkDate 2022 2 1) history wh_year wh_today in
  production_start (init start end_ None) data = mkDate 2022 3 1
  /\ production_start (init start end_ (Some (mkDate 2022 2 1))) data
     = mkDate 2022 2 1
  /\ production_start (init start end_ (Some (mkDate 2022 1 15))) data
     = mkDate 2022 2 1.
Proof. cbv zeta. repeat split; vm_compute; reflexivity. Qed.

(** ** Worked examples *)

Section Examples.

Lemma flat_averages_constant m :
  1 <= m <= 12 -> exists v, flat_averages !! m = Some v /\ (v == 10)%Q.
Proof.
  intros Hm. month_cases m; eexists; (split; [vm_compute; reflexivity | reflexivity]).
Qed.

Lemma march_2024_valid :
  valid_date (startdate march_2024) /\ valid_date (enddate march_2024).
Proof. split; apply valid_date_iff; vm_compute; reflexivity. Qed.

Lemma flat_curve_ok : daily_curve march_2024 flat_averages = Ok flat_curve.
Proof. vm_compute. reflexivity. Qed.

End Examples.

(** C3 fails as stated: for March 2024 and the averages of a history
    without February the seeding raises [KeyError 2], so no daily curve,
    filled or not, is produced. *)
Lemma daily_curve_fails_without_february :
  valid_date (startdate march_2024) /\ valid_date (enddate march_2024)
  /\ days_in_range march_2024 = 31
  /\ seasonal_averages history_without_february = Ok sparse_averages
  /\ daily_curve march_2024 sparse_averages = Raise (KeyError 2)
  /\ ~ (exists daily,
          daily_curve march_2024 sparse_averages = Ok daily
          /\ Forall (fun r => is_Some (snd r)) daily).
Proof.
  assert (daily_curve march_2024 sparse_averages = Raise (KeyError 2)) as E
    by (vm_compute; reflexivity).
  split; [apply march_2024_valid |]. split; [apply march_2024_valid |].
  split; [vm_compute; reflexivity |]. split; [vm_compute; reflexivity |]. split; [exact E |].
  intros (daily & Hd & _). rewrite E in Hd. discriminate.
Qed.

(** C7 fails as stated: with a history without February the forecast
    of March 2024 raises [KeyError 2] and returns no result. *)
Lemma missing_month_raises_key_error :
  seasonal_averages
    (get_energy sparse_provider (production_start march_2024 sparse_provider)
       (last_month (mkDate 2024 3 15)) MONTH)
  = Ok sparse_averages
  /\ sparse_averages !! 2 = None
  /\ get_solar_forecast march_2024 sparse_provider (mkDate 2024 3 15)
     = Raise (KeyError 2)
  /\ ~ (exists result,
          get_solar_forecast march_2024 sparse_provider (mkDate 2024 3 15)
          = Ok result).
Proof.
  assert (get_solar_forecast march_2024 sparse_provider (mkDate 2024 3 15)
          = Raise (KeyError 2)) as E by (vm_compute; reflexivity).
  split; [vm_compute; reflexivity |]. split; [vm_compute; reflexivity |].
  split; [exact E |].
  intros [result Hr]. rewrite E in Hr. discriminate.
Qed.

(** C9 fails as stated: with 10 kWh a day for all twelve months, the
    range March 2024 (31 days) and today = 2024-03-15, the estimate is
    170, not 310. *)
Lemma estimate_counts_from_today_only :
  seasonal_averages
    (get_energy flat_provider (production_start march_2024 flat_provider)
       (last_month (mkDate 2024 3 15)) MONTH)
  = Ok flat_averages
  /\ (forall m, 1 <= m <= 12 ->
        exists v, flat_averages !! m = Some v /\ (v == 10)%Q)
  /\ days_in_range march_2024 = 31
  /\ exists result,
       get_solar_forecast march_2024 flat_provider (mkDate 2024 3 15) = Ok result
       /\ solar_energy_estimated result = 170
       /\ ~ estimate_covers_whole_range 10 march_2024 result.
Proof.
  split; [vm_compute; reflexivity |]. split; [exact flat_averages_constant |].
  split; [vm_compute; reflexivity |].
  exists (mkData 450 170 620 300).
  split; [vm_compute; reflexivity |]. split; [reflexivity |].
  unfold estimate_covers_whole_range. vm_compute. intros H. apply H. reflexivity.
Qed.

(** ** Instances of the theorems *)

(** The reconciler on the rows around 2024-03-15: 1 + 2 + 4 until
    yesterday, 8 today, 16 + 32 from tomorrow. *)
Lemma reconciler_outputs_witness :
  valid_date (mkDate 2024 3 15)
  /\ one_row_a_day week_curve
  /\ rounded (reconcile march_2024 flat_provider (mkDate 2024 3 15) week_curve)
     = mkData 450 56 506 435.
Proof.
  assert (valid_date (mkDate 2024 3 15)) as H1
    by (apply valid_date_iff; vm_compute; reflexivity).
  assert (one_row_a_day week_curve) as H2 by (vm_compute; reflexivity).
  split; [exact H1 |]. split; [exact H2 |].
  destruct (reconciler_outputs march_2024 flat_provider (mkDate 2024 3 15)
              week_curve H1 H2) as [E _].
  rewrite E. vm_compute. reflexivity.
Defined.

(** On the 15th the curve holds 8: 12 kWh produced leave 4 extra, 5 kWh
    leave none. *)
Lemma today_extra_witness :
  one_row_a_day week_curve
  /\ (energy_produced_today_extra
        (reconcile march_2024 flat_provider (mkDate 2024 3 15) week_curve) == 4)%Q
  /\ (energy_produced_today_extra
        (reconcile march_2024 slow_day_provider (mkDate 2024 3 15) week_curve) == 0)%Q.
Proof.
  assert (one_row_a_day week_curve) as H by (vm_compute; reflexivity).
  split; [exact H |]. split.
  - pose proof (today_extra_is_clamped march_2024 flat_provider
                  (mkDate 2024 3 15) week_curve H) as (E & _).
    rewrite E. vm_compute. reflexivity.
  - pose proof (today_extra_is_clamped march_2024 slow_day_provider
                  (mkDate 2024 3 15) week_curve H) as (E & _).
    rewrite E. vm_compute. reflexivity.
Defined.

(** The curve of March 2024 under the flat averages, on 2024-03-15. *)
Lemma curve_at_15th_witness :
  valid_date (startdate march_2024)
  /\ (forall m, 1 <= m <= 12 -> is_Some (flat_averages !! m))
  /\ exists daily,
       daily_curve march_2024 flat_averages = Ok daily
       /\ In (mkDate 2024 3 15, flat_averages !! 3) daily.
Proof.
  assert (valid_date (startdate march_2024)) as H1
    by (apply valid_date_iff; vm_compute; reflexivity).
  assert (forall m, 1 <= m <= 12 -> is_Some (flat_averages !! m)) as H2.
  { intros m Hm. destruct (flat_averages_constant m Hm) as (v & -> & _).
    eexists; reflexivity. }
  split; [exact H1 |]. split; [exact H2 |].
  destruct (curve_at_15th_is_seasonal_average march_2024 flat_averages H1 H2)
    as (daily & E & H).
  exists daily. split; [exact E |].
  apply (H (mkDate 2024 3 15)).
  - apply valid_date_iff. vm_compute. reflexivity.
  - vm_compute. split; discriminate.
  - reflexivity.
Defined.

Lemma flat_averages_cover d :
  In d (daily_index march_2024) -> day d = 15 -> is_Some (flat_averages !! month d).
Proof.
  intros Hin _.
  destruct (daily_index_valid march_2024 d (proj1 march_2024_valid) Hin) as [[Hm _] _].
  destruct (flat_averages_constant _ Hm) as (v & -> & _). eexists; reflexivity.
Qed.

(** The curve of March 2024 under the flat averages has no empty row. *)
Lemma daily_curve_filled_witness :
  valid_date (startdate march_2024) /\ valid_date (enddate march_2024)
  /\ toordinal (startdate march_2024) <= toordinal (enddate march_2024)
  /\ (forall d, In d (daily_index march_2024) -> day d = 15 ->
                is_Some (flat_averages !! month d))
  /\ exists daily,
       daily_curve march_2024 flat_averages = Ok daily
       /\ Forall (fun r => is_Some (snd r)) daily.
Proof.
  assert (valid_date (startdate march_2024)) as H1
    by (apply valid_date_iff; vm_compute; reflexivity).
  assert (valid_date (enddate march_2024)) as H2
    by (apply valid_date_iff; vm_compute; reflexivity).
  assert (toordinal (startdate march_2024) <= toordinal (enddate march_2024)) as H3
    by (vm_compute; discriminate).
  split; [exact H1 |]. split; [exact H2 |]. split; [exact H3 |].
  split; [exact flat_averages_cover |].
  destruct (daily_curve_spans_and_is_filled march_2024 flat_averages H1 H2 H3
              flat_averages_cover)
    as (seeded & daily & _ & E & _ & _ & _ & _ & HF & _).
  exists daily. split; [exact E | exact HF].
Defined.

(** A zero January next to a January of 3100 Wh. *)
Lemma zero_months_witness :
  (ev_value (mkValue (mkDate 2023 1 1) 0) == 0)%Q
  /\ seasonal_averages ([] ++ mkValue (mkDate 2023 1 1) 0
                           :: [mkValue (mkDate 2022 1 1) 3100])
     = Ok (averages_of [mkValue (mkDate 2022 1 1) 3100]).
Proof.
  assert (ev_value (mkValue (mkDate 2023 1 1) 0) == 0)%Q as H by reflexivity.
  split; [exact H |].
  exact (proj1 (proj2 (zero_months_are_excluded []
                          [mkValue (mkDate 2022 1 1) 3100]
                          (mkValue (mkDate 2023 1 1) 0) H))).
Defined.

(** The averages of the flat history. *)
Lemma seasonal_average_witness :
  flat_history 10 <> []
  /\ exists averages, seasonal_averages (flat_history 10) = Ok averages.
Proof.
  assert (flat_history 10 <> []) as H by discriminate.
  split; [exact H |].
  destruct (seasonal_average_is_mean_of_daily_averages (flat_history 10) H)
    as (averages & E & _).
  exists averages. exact E.
Defined.

(** The forecast of March 2024 on the history without February. *)
Lemma forecast_raises_witness :
  seasonal_averages
    (get_energy sparse_provider (production_start march_2024 sparse_provider)
       (last_month (mkDate 2024 3 15)) MONTH)
  = Ok sparse_averages
  /\ exists m, sparse_averages !! m = None
               /\ get_solar_forecast march_2024 sparse_provider (mkDate 2024 3 15)
                  = Raise (KeyError m).
Proof.
  assert (seasonal_averages
            (get_energy sparse_provider (production_start march_2024 sparse_provider)
               (last_month (mkDate 2024 3 15)) MONTH)
          = Ok sparse_averages) as H by (vm_compute; reflexivity).
  split; [exact H |].
  destruct (forecast_raises_exactly_on_missing_month march_2024 sparse_provider
              (mkDate 2024 3 15) sparse_averages H) as [[Hraise _] _].
  destruct Hraise as (m & Hm & _ & Hg).
  - exists (mkDate 2024 2 15). split; [| split; [reflexivity | vm_compute; reflexivity]].
    apply daily_index_in.
    + apply valid_date_iff. vm_compute. reflexivity.
    + apply valid_date_iff. vm_compute. reflexivity.
    + vm_compute. split; discriminate.
  - exists m. split; [exact Hm | exact Hg].
Defined.

(** The forecast of March 2024 on the flat history, on 2024-03-15. *)
Lemma constant_curve_witness :
  valid_date (startdate march_2024) /\ valid_date (enddate march_2024)
  /\ valid_date (mkDate 2024 3 15)
  /\ toordinal (startdate march_2024) <= toordinal (enddate march_2024)
  /\ seasonal_averages
       (get_energy flat_provider (production_start march_2024 flat_provider)
          (last_month (mkDate 2024 3 15)) MONTH)
     = Ok flat_averages
  /\ (forall m, 1 <= m <= 12 ->
        exists v, flat_averages !! m = Some v /\ (v == 10)%Q)
  /\ exists result,
       get_solar_forecast march_2024 flat_provider (mkDate 2024 3 15) = Ok result
       /\ solar_energy_estimated result = 170.
Proof.
  assert (valid_date (startdate march_2024)) as H1
    by (apply valid_date_iff; vm_compute; reflexivity).
  assert (valid_date (enddate march_2024)) as H2
    by (apply valid_date_iff; vm_compute; reflexivity).
  assert (valid_date (mkDate 2024 3 15)) as H3
    by (apply valid_date_iff; vm_compute; reflexivity).
  assert (toordinal (startdate march_2024) <= toordinal (enddate march_2024)) as H4
    by (vm_compute; discriminate).
  assert (seasonal_averages
            (get_energy flat_provider (production_start march_2024 flat_provider)
               (last_month (mkDate 2024 3 15)) MONTH)
          = Ok flat_averages) as H5 by (vm_compute; reflexivity).
  repeat (split; [assumption || exact flat_averages_constant |]).
  destruct (constant_averages_give_constant_curve 10 march_2024 flat_provider
              (mkDate 2024 3 15) flat_averages H1 H2 H3 H4 H5
              flat_averages_constant) as (daily & result & _ & _ & E & Hest).
  exists result. split; [exact E |].
  rewrite Hest; [vm_compute; reflexivity |].
  vm_compute. split; discriminate.
Defined.

(** The extremes of the curve of March 2024 under the flat averages. *)
Lemma curve_extremes_witness :
  daily_curve march_2024 flat_averages = Ok flat_curve
  /\ exists seeded,
       seed_daily flat_averages (daily_index march_2024) = Ok seeded
       /\ forall d v, In (d, Some v) flat_curve ->
            exists lo hi,
              list_min (filled (map snd seeded)) = Some lo
              /\ list_max (filled (map snd seeded)) = Some hi
              /\ (lo <= v <= hi)%Q.
Proof.
  assert (daily_curve march_2024 flat_averages = Ok flat_curve) as H
    by (vm_compute; reflexivity).
  split; [exact H |].
  destruct (curve_within_seed_extremes march_2024 flat_averages flat_curve H)
    as (seeded & E & _ & Hb).
  exists seeded. split; [exact E | exact Hb].
Defined.

(** * Further properties of the forecast *)

(** ** Month boundaries *)

Section MonthBoundaries.

Lemma first_of_next_month_facts d :
  valid_date d ->
  valid_date (first_of_next_month d)
  /\ day (first_of_next_month d) = 1
  /\ toordinal (first_of_next_month d)
     = toordinal d + (days_in_month (year d) (month d) - day d) + 1.
Proof.
  destruct d as [y m k]. intros [Hm Hk]; cbn [year month day] in *.
  unfold first_of_next_month; cbn [year month day].
  destruct (Z.eqb_spec m 12) as [-> | N].
  - split; [split; cbn [year month day]; [lia | vm_compute; intuition discriminate] |].
    split; [reflexivity |].
    unfold toordinal; cbn [year month day].
    rewrite days_before_year_succ. pose proof (days_before_month_dec y).
    change (days_before_month (y + 1) 1) with 0.
    change (days_in_month y 12) with 31. lia.
  - split.
    { split; cbn [year month day]; [lia |].
      pose proof (days_in_month_range y (m + 1)). lia. }
    split; [reflexivity |].
    unfold toordinal; cbn [year month day].
    rewrite days_before_month_succ by lia. lia.
Qed.



End MonthBoundaries.

(** X1. Whether it is given explicitly or taken from the client, the
    resolved production start of a valid raw date is a valid date, is
    the first day of a month, is the raw date itself or the first day of
    the month after it, and lies from 0 to 31 days after the raw date;
    taken from the client it is always later than the raw date. *)
Theorem production_start_is_month_aligned (start end_ : Date)
    (arg : option Date) (data : Solaredge) :
  let raw := match arg with Some r => r | None => get_data_period data end in
  let resolved := production_start (init start end_ arg) data in
  valid_date raw ->
  valid_date resolved
  /\ day resolved = 1
  /\ toordinal raw <= toordinal resolved <= toordinal raw + 31
  /\ (resolved = raw \/ resolved = first_of_next_month raw)
  /\ match arg with
     | Some _ => True
     | None => toordinal raw < toordinal resolved
     end.
Proof.
  cbv zeta. intros Hv.
  pose proof (first_of_next_month_facts _ Hv) as (Fv & Fd & Fo).
  pose proof Hv as [Hm Hk].
  pose proof (days_in_month_range
                (year match arg with Some r => r | None => get_data_period data end)
                (month match arg with Some r => r | None => get_data_period data end)).
  destruct arg as [raw |].
  - rewrite explicit_production_start by exact Hv.
    destruct (Z.ltb_spec 1 (day raw)).
    + split; [exact Fv |]. split; [exact Fd |]. split; [lia |].
      split; [right; reflexivity | exact I].
    + split; [exact Hv |]. split; [lia |]. split; [lia |].
      split; [left; reflexivity | exact I].
  - rewrite derived_production_start by exact Hv.
    split; [exact Fv |]. split; [exact Fd |]. split; [lia |].
    split; [right; reflexivity | lia].
Qed.

(** X2. [last_month] is the last day of the month before today's month:
    its successor is the first of today's month, it lies [day now] days
    before today, and its day is the length of its month. *)
Theorem last_month_is_end_of_previous_month (now : Date) :
  valid_date now ->
  valid_date (last_month now)
  /\ day (last_month now)
     = days_in_month (year (last_month now)) (month (last_month now))
  /\ next_day (last_month now) = mkDate (year now) (month now) 1
  /\ toordinal (last_month now) = toordinal now - day now
  /\ (month (last_month now) = month now - 1 /\ year (last_month now) = year now
      \/ month now = 1 /\ month (last_month now) = 12
         /\ year (last_month now) = year now - 1).
Proof.
  intros [Hm Hk]. destruct now as [y m k]; cbn [year month day] in *.
  assert (valid_date (mkDate y m 1)) as H1.
  { split; cbn [year month day]; [lia |]. pose proof (days_in_month_range y m). lia. }
  pose proof (valid_prev_day _ H1) as Hv.
  pose proof (toordinal_prev_day _ H1) as Ho.
  fold (last_month (mkDate y m k)) in Hv, Ho.
  assert (toordinal (mkDate y m 1) = toordinal (mkDate y m k) - k + 1) as Hf
    by (unfold toordinal; cbn [year month day]; lia).
  split; [exact Hv |].
  unfold last_month, prev_day in *; cbn [year month day] in *.
  change (1 <? 1) with false in *. cbv iota in *.
  destruct (Z.ltb_spec 1 m); cbn [year month day] in *.
  - split; [reflexivity |]. split.
    + unfold next_day; cbn [year month day]. rewrite Z.ltb_irrefl.
      destruct (Z.ltb_spec (m - 1) 12); [| lia]. f_equal. lia.
    + split; [lia |]. left. split; reflexivity.
  - assert (m = 1) by lia; subst m. split; [reflexivity |]. split.
    + unfold next_day; cbn [year month day].
      change (days_in_month (y - 1) 12) with 31. cbn. f_equal. lia.
    + split; [lia |]. right. repeat split.
Qed.


(** ** When the forecast returns *)

Section Outcome.

Variable self : SolaredgeForecast.
Variable data : Solaredge.
Variable now : Date.

(** What a returned result is made of. *)
Lemma get_solar_forecast_ok result :
  get_solar_forecast self data now = Ok result <->
  exists averages daily,
    seasonal_averages
      (get_energy data (production_start self data) (last_month now) MONTH)
    = Ok averages
    /\ daily_curve self averages = Ok daily
    /\ result = rounded (reconcile self data now daily).
Proof.
  unfold get_solar_forecast.
  destruct (seasonal_averages
              (get_energy data (production_start self data) (last_month now) MONTH))
    as [averages | e] eqn:Ea; cbn [bind].
  - destruct (daily_curve self averages) as [daily | e] eqn:Ed; cbn [bind].
    + split.
      * intros H. injection H as <-. exists averages, daily. auto.
      * intros (a & d & Ha & Hd & ->). injection Ha as <-.
        rewrite Ed in Hd. injection Hd as <-. reflexivity.
    + split; [discriminate |].
      intros (a & d & Ha & Hd & _). injection Ha as <-. congruence.
  - split; [discriminate |]. intros (a & d & Ha & _). discriminate.
Qed.

Lemma get_solar_forecast_raise e :
  get_solar_forecast self data now = Raise e <->
  seasonal_averages
    (get_energy data (production_start self data) (last_month now) MONTH)
  = Raise e
  \/ exists averages,
       seasonal_averages
         (get_energy data (production_start self data) (last_month now) MONTH)
       = Ok averages
       /\ daily_curve self averages = Raise e.
Proof.
  unfold get_solar_forecast.
  destruct (seasonal_averages
              (get_energy data (production_start self data) (last_month now) MONTH))
    as [averages | e'] eqn:Ea; cbn [bind].
  - destruct (daily_curve self averages) as [daily | e''] eqn:Ed; cbn [bind].
    + split; [discriminate |].
      intros [H | (a & Ha & Hd)]; [discriminate |]. injection Ha as <-. congruence.
    + split.
      * intros H. right. exists averages. split; [reflexivity |]. congruence.
      * intros [H | (a & Ha & Hd)]; [discriminate |]. injection Ha as <-. congruence.
  - split; [intros H; left; congruence |].
    intros [H | (a & Ha & _)]; [congruence | discriminate].
Qed.

End Outcome.

Section AveragesDomain.

(** A month number has an average exactly when the history holds a
    record of that month number with energy other than 0. *)
Lemma averages_of_is_Some values m :
  is_Some (averages_of values !! m) <->
  exists r, In r values /\ month (ev_date r) = m /\ ~ (ev_value r == 0)%Q.
Proof.
  unfold averages_of.
  pose proof (groupby_mean_lookup (month_rows (retained values)) m) as H.
  rewrite group_values_month_rows in H.
  assert (forall r, In r (List.filter (fun r => month (ev_date r) =? m) (retained values))
                    <-> In r values /\ month (ev_date r) = m /\ ~ (ev_value r == 0)%Q) as Hin.
  { intros r. unfold retained. rewrite !filter_In, Z.eqb_eq, negb_true_iff.
    split.
    - intros [[Hr Hz] Hm]. repeat split; auto. intros E.
      apply Qeq_eq_bool in E. congruence.
    - intros (Hr & Hm & Hz). repeat split; auto.
      destruct (Qeq_bool (ev_value r) 0) eqn:E; [| reflexivity].
      apply Qeq_bool_eq in E. contradiction. }
  destruct (groupby_mean (month_rows (retained values)) !! m) as [avg |].
  - destruct H as [Hne _]. split; [| intros _; eexists; reflexivity].
    intros _.
    destruct (List.filter (fun r => month (ev_date r) =? m) (retained values))
      as [| r t] eqn:E; [cbn in Hne; congruence |].
    exists r. apply Hin. left. reflexivity.
  - split; [intros [x Hx]; discriminate |].
    intros (r & Hr). apply Hin in Hr.
    destruct (List.filter (fun r => month (ev_date r) =? m) (retained values));
      [destruct Hr | cbn in H; discriminate].
Qed.

Lemma seasonal_averages_cases values :
  (values = [] /\ seasonal_averages values = Raise AttributeError)
  \/ (values <> [] /\ seasonal_averages values = Ok (averages_of values)).
Proof.
  destruct values as [| r t]; [left; split; reflexivity | right].
  split; [discriminate | reflexivity].
Qed.

End AveragesDomain.

(** X4. The forecast returns a result exactly when the history is not
    empty and, for every 15th of the padded index, holds a record of that
    month number whose energy is not 0. *)
Theorem forecast_returns_iff_history_covers (self : SolaredgeForecast)
    (data : Solaredge) (now : Date) :
  let history :=
    get_energy data (production_start self data) (last_month now) MONTH in
  (exists result, get_solar_forecast self data now = Ok result)
  <-> history <> []
      /\ forall d, In d (daily_index self) -> day d = 15 ->
           exists r, In r history /\ month (ev_date r) = month d
                     /\ ~ (ev_value r == 0)%Q.
Proof.
  cbv zeta.
  set (history := get_energy data (production_start self data) (last_month now) MONTH).
  split.
  - intros [result Hr]. apply get_solar_forecast_ok in Hr as (a & daily & Ha & Hd & _).
    fold history in Ha.
    destruct (seasonal_averages_cases history) as [[_ E] | [Hne E]]; [congruence |].
    split; [exact Hne |].
    rewrite E in Ha. injection Ha as <-.
    apply daily_curve_ok in Hd as (seeded & Hs & _).
    apply seed_daily_ok in Hs as [_ Hc].
    intros d Hin H15.
    destruct (Forall2_combine_in _ _ _ d Hc Hin) as (c & _ & Hav).
    apply average_ok in Hav as [(_ & Hs & ->) | (N & _)]; [| contradiction].
    apply averages_of_is_Some, Hs.
  - intros [Hne Hcov].
    destruct (seasonal_averages_cases history) as [[E _] | [_ E]]; [contradiction |].
    destruct (seed_daily_total (averages_of history) (daily_index self)) as [seeded Hs].
    { intros d Hin H15. apply averages_of_is_Some, Hcov; assumption. }
    exists (rounded (reconcile self data now (interpolate seeded))).
    apply get_solar_forecast_ok. exists (averages_of history), (interpolate seeded).
    split; [exact E |]. split; [| reflexivity].
    apply daily_curve_ok. eauto.
Qed.

Section FirstFailure.

Lemma map_result_first_raise {A B} (f : A -> Result B) l e :
  map_result f l = Raise e ->
  exists pre a post,
    l = pre ++ a :: post /\ f a = Raise e
    /\ forall x, In x pre -> exists b, f x = Ok b.
Proof.
  induction l as [| a t IH]; cbn; [discriminate |].
  destruct (f a) as [b | e'] eqn:Ea; cbn.
  - destruct (map_result f t) as [bs | e''] eqn:Et; cbn; [discriminate |].
    intros E. injection E as ->.
    destruct (IH eq_refl) as (pre & a' & post & -> & Ha' & Hpre).
    exists (a :: pre), a', post. split; [reflexivity |]. split; [exact Ha' |].
    intros x [<- | Hx]; eauto.
  - intros E. injection E as ->. exists [], a, t.
    split; [reflexivity |]. split; [exact Ea |]. intros x [].
Qed.

End FirstFailure.

(** X5. When the seeding fails, the error is the [KeyError] of the month
    number of the earliest 15th of the padded index whose month number
    has no average: every 15th before it has one. *)
Theorem key_error_names_first_missing_month (self : SolaredgeForecast)
    (averages : gmap Z Q) (e : Error) :
  daily_curve self averages = Raise e ->
  exists before d after,
    daily_index self = before ++ d :: after
    /\ day d = 15
    /\ averages !! month d = None
    /\ e = KeyError (month d)
    /\ forall d', In d' before -> day d' = 15 -> is_Some (averages !! month d').
Proof.
  intros H. apply daily_curve_raise in H. unfold seed_daily in H.
  destruct (map_result (average averages) (daily_index self)) as [col | e'] eqn:E;
    cbn in H; [discriminate |].
  injection H as ->.
  apply map_result_first_raise in E as (pre & d & post & Hi & Hd & Hpre).
  apply average_raise in Hd as (H15 & Hn & ->).
  exists pre, d, post. repeat (split; [assumption || reflexivity |]).
  intros d' Hin H15'. destruct (Hpre d' Hin) as [c Hc].
  apply average_ok in Hc as [(_ & Hs & ->) | (N & _)]; [exact Hs | contradiction].
Qed.

(** X6. A history in which every energy is 0 never gives a forecast of a
    range of at least one day: an empty history raises [AttributeError],
    any other raises the [KeyError] of the month of a 15th of the padded
    index. *)
Theorem history_without_energy_gives_no_forecast (self : SolaredgeForecast)
    (data : Solaredge) (now : Date) :
  let history :=
    get_energy data (production_start self data) (last_month now) MONTH in
  valid_date (startdate self) -> valid_date (enddate self) ->
  toordinal (startdate self) <= toordinal (enddate self) ->
  (forall r, In r history -> (ev_value r == 0)%Q) ->
  (history = [] /\ get_solar_forecast self data now = Raise AttributeError)
  \/ (history <> []
      /\ exists d, In d (daily_index self) /\ day d = 15
                   /\ get_solar_forecast self data now = Raise (KeyError (month d))).
Proof.
  cbv zeta.
  set (history := get_energy data (production_start self data) (last_month now) MONTH).
  intros Hs He Hle Hz.
  destruct (seasonal_averages_cases history) as [[E Ha] | [Hne Ha]].
  - left. split; [exact E |]. apply get_solar_forecast_raise. left. exact Ha.
  - right. split; [exact Hne |].
    assert (forall m, averages_of history !! m = None) as Hnone.
    { intros m. destruct (averages_of history !! m) as [x |] eqn:L; [| reflexivity].
      assert (is_Some (averages_of history !! m)) as HS by (rewrite L; eexists; reflexivity).
      apply averages_of_is_Some in HS as (r & Hr & _ & Hnz).
      exfalso. apply Hnz, Hz, Hr. }
    destruct (daily_index_has_15th self Hs He Hle) as (d0 & Hin0 & H150).
    destruct (daily_curve self (averages_of history)) as [daily | e] eqn:Ed.
    + exfalso. apply daily_curve_ok in Ed as (seeded & Hsd & _).
      apply seed_daily_ok in Hsd as [_ Hc].
      destruct (Forall2_combine_in _ _ _ d0 Hc Hin0) as (c & _ & Hav).
      apply average_ok in Hav as [(_ & [x Hx] & Hl) | (N & _)]; [| contradiction].
      rewrite Hnone in Hl. congruence.
    + pose proof Ed as Ed'.
      apply daily_curve_raise, seed_daily_raise in Ed' as (d & Hin & H15 & _ & ->).
      exists d. split; [exact Hin |]. split; [exact H15 |].
      apply get_solar_forecast_raise. right. exists (averages_of history).
      split; [exact Ha | exact Ed].
Qed.

Section TwoSeeds.

Lemma toordinal_same_month y m k k' :
  toordinal (mkDate y m k') = toordinal (mkDate y m k) + (k' - k).
Proof. unfold toordinal; cbn [year month day]. lia. Qed.

(** A date not before [s] is in the month of [s] or not before the first
    day of the next month. *)
Lemma same_month_or_later s e :
  valid_date s -> valid_date e -> toordinal s <= toordinal e ->
  (year e = year s /\ month e = month s /\ day s <= day e)
  \/ toordinal (first_of_next_month s) <= toordinal e.
Proof.
  intros Hs He Hle.
  destruct (first_of_next_month_facts s Hs) as (_ & _ & Hf).
  destruct (Z.le_gt_cases (toordinal (first_of_next_month s)) (toordinal e))
    as [L | L]; [right; exact L | left].
  destruct s as [y m k]; cbn [year month day] in *.
  destruct Hs as [Hm Hk]; cbn [year month day] in *.
  assert (e = mkDate y m (k + (toordinal e - toordinal (mkDate y m k)))) as E.
  { apply toordinal_inj; [exact He | split; cbn [year month day]; lia |].
    rewrite (toordinal_same_month y m k
               (k + (toordinal e - toordinal (mkDate y m k)))). lia. }
  rewrite E. cbn [year month day]. repeat split. lia.
Qed.

(** The padded index of a range of at least one day holds the 15th of two
    different month numbers. *)
Lemma daily_index_has_two_15ths self :
  valid_date (startdate self) -> valid_date (enddate self) ->
  toordinal (startdate self) <= toordinal (enddate self) ->
  exists d1 d2,
    In d1 (daily_index self) /\ In d2 (daily_index self)
    /\ day d1 = 15 /\ day d2 = 15 /\ month d1 <> month d2.
Proof.
  intros Hs He Hle.
  pose proof (toordinal_minus_month _ Hs) as Hlo.
  pose proof (toordinal_plus_month _ He) as Hhi.
  fold (first_day self) in Hlo. fold (last_day self) in Hhi.
  destruct (startdate self) as [y m k] eqn:Es.
  pose proof Hs as [Hm Hk]; cbn [year month day] in Hm, Hk.
  pose proof (days_in_month_range y m) as Hdim.
  assert (valid_date (mkDate y m 15)) as H15
    by (split; cbn [year month day]; lia).
  pose proof (toordinal_same_month y m k 15) as Ho15.
  destruct (Z.le_gt_cases k 15) as [Hk15 | Hk15].
  - (* the 15th of the month before *)
    set (p := date_sub (mkDate y m k) (mkDelta 1 None)).
    assert (valid_date p) as Hp by (apply valid_minus_month, Hs).
    assert (first_day self = p) as Efd by (unfold first_day; rewrite Es; reflexivity).
    assert (day p = k /\ month p <> m) as [Hpk Hpm].
    { unfold p, date_sub, date_add, rd_neg; cbn [year month day rd_months rd_day].
      destruct (Z.ltb_spec 12 (m + - (1))); [lia |].
      destruct (Z.ltb_spec (m + - (1)) 1); cbn [year month day].
      - pose proof (days_in_month_range (y - 1) (m + - (1) + 12)). lia.
      - pose proof (days_in_month_range y (m + - (1))). lia. }
    destruct p as [py pm pk] eqn:Ep; cbn [year month day] in *. subst pk.
    pose proof (days_in_month_range py pm).
    destruct Hp as [Hpm1 Hpk1]; cbn [year month day] in *.
    exists (mkDate py pm 15), (mkDate y m 15).
    pose proof (toordinal_same_month py pm k 15) as Hop.
    rewrite Efd in Hlo.
    repeat split; cbn [year month day]; try lia; try assumption.
    + apply daily_index_in; rewrite ?Es, ?Efd; [exact Hs | | lia].
      split; cbn [year month day]; lia.
    + apply daily_index_in; rewrite ?Es, ?Efd; [exact Hs | exact H15 | lia].
  - (* the 15th of the month after *)
    destruct (first_of_next_month_facts _ Hs) as (Fv & Fd & Fo).
    cbn [year month day] in Fo.
    destruct (first_of_next_month (mkDate y m k)) as [ny nm nk] eqn:En.
    cbn [year month day] in Fd. subst nk.
    assert (nm <> m) as Hnm.
    { unfold first_of_next_month in En; cbn [year month day] in En.
      destruct (m =? 12) eqn:E12; injection En as <- <-;
        [apply Z.eqb_eq in E12 | ]; lia. }
    pose proof (toordinal_same_month ny nm 1 15) as Hon.
    pose proof (days_in_month_range ny nm).
    destruct Fv as [Fm _]; cbn [year month day] in Fm.
    assert (toordinal (mkDate ny nm 15) <= toordinal (last_day self)) as Hlast.
    { destruct (same_month_or_later (mkDate y m k) (enddate self) Hs He Hle)
        as [(Ey & Em & Ek) | L].
      - (* the range ends in the month of its start *)
        unfold last_day, date_add; cbn [rd_months rd_day].
        destruct (enddate self) as [ey em ek]; cbn [year month day] in *. subst ey em.
        unfold first_of_next_month in En; cbn [year month day] in En.
        destruct (Z.ltb_spec 12 (m + 1)).
        + assert (m = 12) by lia; subst m. cbn in En. injection En as <- <-.
          change (12 + 1 - 12) with 1.
          rewrite (toordinal_same_month (y + 1) 1 15
                     (Z.min (days_in_month (y + 1) 1) ek)).
          pose proof (days_in_month_range (y + 1) 1). lia.
        + destruct (Z.ltb_spec (m + 1) 1); [lia |].
          destruct (Z.eqb_spec m 12); [lia |]. injection En as <- <-.
          rewrite (toordinal_same_month y (m + 1) 15
                     (Z.min (days_in_month y (m + 1)) ek)).
          pose proof (days_in_month_range y (m + 1)). lia.
      - rewrite En in L. lia. }
    exists (mkDate y m 15), (mkDate ny nm 15).
    repeat split; cbn [year month day]; try lia.
    + apply daily_index_in; rewrite ?Es; [exact Hs | exact H15 | lia].
    + apply daily_index_in; rewrite ?Es; [exact Hs | | lia].
      split; cbn [year month day]; lia.
Qed.

End TwoSeeds.

(** X7. A history whose records with energy all have the same month
    number never gives a forecast of a range of at least one day: the
    padded index holds the 15th of two different month numbers. *)
Theorem single_month_history_never_forecasts (self : SolaredgeForecast)
    (data : Solaredge) (now : Date) :
  let history :=
    get_energy data (production_start self data) (last_month now) MONTH in
  valid_date (startdate self) -> valid_date (enddate self) ->
  toordinal (startdate self) <= toordinal (enddate self) ->
  (forall r r', In r history -> In r' history ->
     ~ (ev_value r == 0)%Q -> ~ (ev_value r' == 0)%Q ->
     month (ev_date r) = month (ev_date r')) ->
  exists e, get_solar_forecast self data now = Raise e.
Proof.
  cbv zeta. intros Hs He Hle Hone.
  destruct (get_solar_forecast self data now) as [result | e] eqn:E; [| eauto].
  exfalso.
  apply get_solar_forecast_ok in E as (averages & daily & Ha & Hd & _).
  destruct (seasonal_averages_cases
              (get_energy data (production_start self data) (last_month now) MONTH))
    as [[_ E] | [_ E]]; [congruence |].
  rewrite E in Ha. injection Ha as <-.
  apply daily_curve_ok in Hd as (seeded & Hsd & _).
  apply seed_daily_ok in Hsd as [_ Hc].
  destruct (daily_index_has_two_15ths self Hs He Hle)
    as (d1 & d2 & Hin1 & Hin2 & H1 & H2 & Hne).
  assert (forall d, In d (daily_index self) -> day d = 15 ->
            exists r,
              In r (get_energy data (production_start self data) (last_month now) MONTH)
              /\ month (ev_date r) = month d /\ ~ (ev_value r == 0)%Q) as Hcov.
  { intros d Hin H15.
    destruct (Forall2_combine_in _ _ _ d Hc Hin) as (c & _ & Hav).
    apply average_ok in Hav as [(_ & HS & ->) | (N & _)]; [| contradiction].
    apply averages_of_is_Some, HS. }
  destruct (Hcov d1 Hin1 H1) as (r1 & Hr1 & Hm1 & Hz1).
  destruct (Hcov d2 Hin2 H2) as (r2 & Hr2 & Hm2 & Hz2).
  apply Hne. rewrite <- Hm1, <- Hm2. apply Hone; assumption.
Qed.

Section SupportedYears.



End SupportedYears.


(** ** The shape of the curve *)

Section LinearGap.

Local Open Scope Q_scope.

Lemma next_valid_gap n b rest :
  next_valid (repeat None n ++ Some b :: rest) = Some (n, b).
Proof.
  induction n as [| n IH]; cbn; [reflexivity |]. rewrite IH. reflexivity.
Qed.

Lemma inject_nat_pos k : 0 < inject_Z (Z.of_nat (S k)).
Proof. rewrite <- (Zlt_Qlt 0). lia. Qed.

(** The cells of a gap of [n] empty cells that starts [dp] positions after
    a filled cell [a] and ends at a filled cell [b]. *)
Lemma interpolate_from_gap dp a n b rest j :
  (j <= n)%nat ->
  exists v,
    nth_error (interpolate_from (Some (S dp, a)) (repeat None n ++ Some b :: rest)) j
    = Some (Some v)
    /\ v == a + (b - a) * (inject_Z (Z.of_nat (S dp + j))
                           / inject_Z (Z.of_nat (S dp + n))).
Proof.
  revert dp j; induction n as [| n IH]; intros dp j Hj.
  - assert (j = 0%nat) as -> by lia. cbn [repeat app interpolate_from nth_error].
    exists b. split; [reflexivity |].
    rewrite !Nat.add_0_r. field.
    pose proof (inject_nat_pos dp). lra.
  - cbn [repeat app interpolate_from step_prev]. rewrite next_valid_gap.
    destruct j as [| j].
    + cbn [nth_error interp_cell]. eexists. split; [reflexivity |].
      rewrite Nat.add_0_r. field.
      pose proof (inject_nat_pos (dp + S n)). cbn [Nat.add] in *. lra.
    + cbn [nth_error]. destruct (IH (S dp) j) as (v & Hv & Ev); [lia |].
      exists v. split; [exact Hv |]. rewrite Ev.
      replace (S (S dp) + j)%nat with (S dp + S j)%nat by lia.
      replace (S (S dp) + n)%nat with (S dp + S n)%nat by lia.
      reflexivity.
Qed.

End LinearGap.

(** X9. Between two filled cells [a] and [b] separated by [n] empty
    cells, interpolation fills the cell [i] positions after [a] with
    a + (b - a) * i / (n + 1): the values are linear in the position,
    whatever comes before [a] or after [b]. *)
Theorem interpolation_is_linear_between_seeds (front rest : list (option Q))
    (a b : Q) (n i : nat) :
  (i <= S n)%nat ->
  exists v,
    nth_error (interpolate_column (front ++ Some a :: repeat None n ++ Some b :: rest))
              (length front + i)
    = Some (Some v)
    /\ (v == a + (b - a) * (inject_Z (Z.of_nat i) / inject_Z (Z.of_nat (S n))))%Q.
Proof.
  intros Hi. unfold interpolate_column.
  destruct (interpolate_from_app None front a (repeat None n ++ Some b :: rest))
    as (front' & L & ->).
  rewrite <- L, nth_error_app2 by lia.
  replace (length front' + i - length front')%nat with i by lia.
  destruct i as [| j].
  - exists a. split; [reflexivity |]. field.
    pose proof (inject_nat_pos n). lra.
  - cbn [nth_error].
    destruct (interpolate_from_gap 0 a n b rest j) as (v & Hv & Ev); [lia |].
    exists v. split; [exact Hv |]. rewrite Ev. reflexivity.
Qed.

Section RoundOrder.

Local Open Scope Q_scope.

Lemma round_bounds x :
  inject_Z (Qfloor x) <= x < inject_Z (Qfloor x) + 1
  /\ (Qfloor x <= round x <= Qfloor x + 1)%Z.
Proof.
  pose proof (Qfloor_le x) as Hl. pose proof (Qlt_floor x) as Hu.
  rewrite inject_Z_plus in Hu. split; [split; [exact Hl | exact Hu] |].
  unfold round.
  destruct (Qlt_bool (x - inject_Z (Qfloor x)) (1 # 2)); [lia |].
  destruct (Qlt_bool (1 # 2) (x - inject_Z (Qfloor x))); [lia |].
  destruct (Z.even (Qfloor x)); lia.
Qed.

Lemma round_mono x y : x <= y -> (round x <= round y)%Z.
Proof.
  intros Hxy.
  pose proof (Qfloor_resp_le _ _ Hxy) as Hf.
  destruct (round_bounds x) as [[Hxl Hxu] Hrx].
  destruct (round_bounds y) as [[Hyl Hyu] Hry].
  destruct (Z.eq_dec (Qfloor x) (Qfloor y)) as [E | N]; [| lia].
  unfold round. rewrite <- E.
  destruct (Qlt_bool (x - inject_Z (Qfloor x)) (1 # 2)) eqn:X1.
  - destruct (Qlt_bool (y - inject_Z (Qfloor x)) (1 # 2)); [lia |].
    destruct (Qlt_bool (1 # 2) (y - inject_Z (Qfloor x))); [lia |].
    destruct (Z.even (Qfloor x)); lia.
  - apply Qlt_bool_false in X1.
    destruct (Qlt_bool (y - inject_Z (Qfloor x)) (1 # 2)) eqn:Y1.
    { apply Qlt_bool_iff in Y1. lra. }
    destruct (Qlt_bool (1 # 2) (x - inject_Z (Qfloor x))) eqn:X2.
    + apply Qlt_bool_iff in X2.
      destruct (Qlt_bool (1 # 2) (y - inject_Z (Qfloor x))) eqn:Y2; [lia |].
      apply Qlt_bool_false in Y2. lra.
    + destruct (Qlt_bool (1 # 2) (y - inject_Z (Qfloor x))); [| lia].
      destruct (Z.even (Qfloor x)); lia.
Qed.

End RoundOrder.

Section NonNegative.

Local Open Scope Q_scope.

Lemma Qsum_nonneg l : (forall x, In x l -> 0 <= x) -> 0 <= Qsum l.
Proof.
  induction l as [| a t IH]; intros H; cbn; [lra |].
  pose proof (H a (or_introl eq_refl)).
  assert (0 <= Qsum t) by (apply IH; intros x Hx; apply H; right; exact Hx). lra.
Qed.

Lemma mean_nonneg l : (forall x, In x l -> 0 <= x) -> 0 <= mean l.
Proof.
  intros H. unfold mean. pose proof (Qsum_nonneg l H) as Hs.
  destruct l as [| a t].
  - vm_compute. discriminate.
  - apply Qle_shift_div_l; [| lra].
    rewrite <- (Zlt_Qlt 0). cbn [length]. lia.
Qed.

Lemma daily_energy_nonneg r : 0 <= ev_value r -> 0 <= daily_energy r.
Proof.
  intros H. unfold daily_energy.
  pose proof (days_in_month_range (year (ev_date r)) (month (ev_date r))) as Hd.
  assert (0 < inject_Z (days_in_month (year (ev_date r)) (month (ev_date r)))) as Hp.
  { rewrite <- (Zlt_Qlt 0). lia. }
  apply Qle_shift_div_l; [lra |].
  apply Qle_shift_div_l; [exact Hp | lra].
Qed.

Lemma averages_of_nonneg values m avg :
  (forall r, In r values -> 0 <= ev_value r) ->
  averages_of values !! m = Some avg -> 0 <= avg.
Proof.
  intros Hv Hl. unfold averages_of in Hl.
  pose proof (groupby_mean_lookup (month_rows (retained values)) m) as H.
  rewrite Hl in H. destruct H as [_ ->].
  apply mean_nonneg. intros x Hx.
  rewrite group_values_month_rows in Hx.
  apply in_map_iff in Hx as (r & <- & Hr).
  apply filter_In in Hr as [Hr _]. unfold retained in Hr.
  apply filter_In in Hr as [Hr _].
  apply daily_energy_nonneg, Hv, Hr.
Qed.

Lemma fold_min_in x t : In (fold_right Qmin x t) (x :: t).
Proof.
  induction t as [| a t IH]; cbn [fold_right]; [left; reflexivity |].
  unfold Qmin at 1, GenericMinMax.gmin.
  destruct (Qcompare a (fold_right Qmin x t)).
  - right. left. reflexivity.
  - right. left. reflexivity.
  - destruct IH as [IH | IH]; [left; exact IH | right; right; exact IH].
Qed.

Lemma list_min_in l lo : list_min l = Some lo -> In lo l.
Proof.
  destruct l as [| x t]; cbn; [discriminate |].
  intros E. injection E as <-. apply fold_min_in.
Qed.

(** Interpolation of a column without negative cells has none. *)
Lemma interpolate_column_nonneg col :
  (forall x, In (Some x) col -> 0 <= x) ->
  forall w, In (Some w) (interpolate_column col) -> 0 <= w.
Proof.
  intros H w Hw.
  destruct (interpolate_column_extremes col w Hw) as (lo & hi & Hlo & _ & Hb & _).
  apply list_min_in, in_filled in Hlo. specialize (H lo Hlo). lra.
Qed.

Lemma nonneg_rows_loc a b rows : nonneg_rows rows -> nonneg_rows (loc a b rows).
Proof.
  unfold nonneg_rows, loc. intros H.
  assert (Forall (fun r : Row => forall v, snd r = Some v -> 0 <= v)
            (drop_while (fun r => date_ltb (fst r) a) rows)) as H'.
  { induction H as [| r t Hr Ht IH]; cbn; [constructor |].
    destruct (date_ltb (fst r) a); [exact IH | constructor; assumption]. }
  induction H' as [| r t Hr Ht IH]; cbn; [constructor |].
  destruct (date_leb (fst r) b); constructor; assumption.
Qed.

Lemma energy_sum_nonneg rows : nonneg_rows rows -> 0 <= energy_sum rows.
Proof.
  induction 1 as [| [d c] t Hr Ht IH]; cbn; [lra |].
  destruct c as [v |]; [| exact IH].
  specialize (Hr v eq_refl). lra.
Qed.

Lemma daily_curve_nonneg self averages daily :
  (forall m avg, averages !! m = Some avg -> 0 <= avg) ->
  daily_curve self averages = Ok daily -> nonneg_rows daily.
Proof.
  intros Ha Hd. apply daily_curve_ok in Hd as (seeded & Hs & ->).
  unfold nonneg_rows. apply List.Forall_forall. intros [d c] Hin v Hv.
  cbn in Hv. subst c.
  apply (interpolate_column_nonneg (map snd seeded)).
  - intros x Hx. apply seed_daily_ok in Hs as [Ei Ec].
    apply List.in_map_iff in Hx as ([d' c'] & E & Hin'). cbn in E. subst c'.
    rewrite <- (combine_fst_snd seeded), Ei in Hin'.
    pose proof (Forall2_in_combine _ _ _ _ _ Ec Hin') as Hav.
    apply average_ok in Hav as [(_ & _ & Hl) | (_ & Hl)]; [| discriminate].
    eapply Ha. symmetry. exact Hl.
  - rewrite <- interpolate_energy. apply (in_map snd) in Hin. exact Hin.
Qed.

End NonNegative.

(** X10. When no energy of the history is negative, the estimate of a
    returned result is not negative and its forecast is not below the
    produced energy. *)
Theorem nonnegative_history_gives_nonnegative_estimate (self : SolaredgeForecast)
    (data : Solaredge) (now : Date) (result : ForecastData) :
  (forall r,
      In r (get_energy data (production_start self data) (last_month now) MONTH) ->
      (0 <= ev_value r)%Q) ->
  get_solar_forecast self data now = Ok result ->
  0 <= solar_energy_estimated result
  /\ solar_energy_produced result <= solar_energy_forecast result.
Proof.
  intros Hv H. apply get_solar_forecast_ok in H as (averages & daily & Ha & Hd & ->).
  destruct (seasonal_averages_cases
              (get_energy data (production_start self data) (last_month now) MONTH))
    as [[_ E] | [_ E]]; [congruence |].
  rewrite E in Ha. injection Ha as <-.
  assert (nonneg_rows daily) as Hn.
  { eapply daily_curve_nonneg; [| exact Hd].
    intros m avg. apply averages_of_nonneg, Hv. }
  pose proof (energy_sum_nonneg _ (nonneg_rows_loc now now daily Hn)) as H1.
  pose proof (energy_sum_nonneg _
                (nonneg_rows_loc (next_day now) (enddate self) daily Hn)) as H2.
  unfold rounded, reconcile.
  cbn [solar_energy_estimated solar_energy_produced solar_energy_forecast
       energy_estimated_period energy_production_until_now forecast].
  split.
  - change 0 with (round 0). apply round_mono. lra.
  - apply round_mono. lra.
Qed.

(** ** The slices of the reconciler *)

Section Partition.

Local Open Scope Q_scope.

Lemma slice_sum_ext p q rows :
  (forall d, p d = q d) -> slice_sum p rows = slice_sum q rows.
Proof.
  intros H. unfold slice_sum. f_equal. apply filter_ext. intros r. apply H.
Qed.

Lemma slice_sum_disjoint p q rows :
  (forall d, p d && q d = false) ->
  slice_sum p rows + slice_sum q rows == slice_sum (fun d => p d || q d) rows.
Proof.
  intros H. unfold slice_sum. induction rows as [| [d c] t IH]; cbn [List.filter fst].
  - cbn. ring.
  - specialize (H d).
    destruct (p d), (q d); try discriminate; cbn [orb energy_sum];
      destruct c; rewrite <- IH; ring.
Qed.

Lemma slice_sum_none p rows :
  (forall r, In r rows -> p (fst r) = false) -> slice_sum p rows = 0.
Proof.
  intros H. unfold slice_sum. rewrite filter_none; [reflexivity |].
  apply List.Forall_forall. exact H.
Qed.

End Partition.

Section ReconcileSlices.

Variable self : SolaredgeForecast.
Variable data : Solaredge.
Variable now : Date.
Variable daily : list Row.
Hypothesis Hnow : valid_date now.
Hypothesis Hsorted : sorted_by_date daily.

Lemma estimated_today_slice :
  energy_estimated_today (reconcile self data now daily)
  = slice_sum (fun d => toordinal d =? toordinal now) daily.
Proof.
  unfold reconcile. cbn [energy_estimated_today].
  apply loc_slice_sum; [exact Hsorted |].
  intros d. unfold date_leb.
  destruct (Z.eqb_spec (toordinal d) (toordinal now)),
    (Z.leb_spec (toordinal now) (toordinal d)),
    (Z.leb_spec (toordinal d) (toordinal now)); cbn; auto; lia.
Qed.

Lemma estimated_from_tomorrow_slice :
  energy_estimated_from_tomorrow (reconcile self data now daily)
  = slice_sum (fun d => (toordinal now <? toordinal d)
                        && (toordinal d <=? toordinal (enddate self))) daily.
Proof.
  unfold reconcile. cbn [energy_estimated_from_tomorrow].
  apply loc_slice_sum; [exact Hsorted |].
  intros d. unfold date_leb. rewrite toordinal_next_day by exact Hnow.
  f_equal.
  destruct (Z.ltb_spec (toordinal now) (toordinal d)),
    (Z.leb_spec (toordinal now + 1) (toordinal d)); auto; lia.
Qed.

Lemma estimated_until_yesterday_slice :
  energy_estimated_until_yesterday (reconcile self data now daily)
  = slice_sum (fun d => (toordinal (startdate self) <=? toordinal d)
                        && (toordinal d <? toordinal now)) daily.
Proof.
  unfold reconcile. cbn [energy_estimated_until_yesterday].
  apply loc_slice_sum; [exact Hsorted |].
  intros d. unfold date_leb. rewrite toordinal_prev_day by exact Hnow.
  f_equal.
  destruct (Z.ltb_spec (toordinal d) (toordinal now)),
    (Z.leb_spec (toordinal d) (toordinal now - 1)); auto; lia.
Qed.

Lemma estimated_period_eq :
  energy_estimated_period (reconcile self data now daily)
  = (energy_estimated_today (reconcile self data now daily)
     + energy_estimated_from_tomorrow (reconcile self data now daily))%Q.
Proof. reflexivity. Qed.

End ReconcileSlices.

Section OrderedSlices.

Lemma in_range_between a b rows :
  List.filter (in_range a b) rows
  = List.filter (between (toordinal a) (toordinal b)) rows.
Proof. reflexivity. Qed.

Lemma between_spec lo hi r :
  between lo hi r = true <-> lo <= toordinal (fst r) <= hi.
Proof. unfold between. rewrite andb_true_iff, !Z.leb_le. tauto. Qed.

Lemma between_false lo hi r :
  between lo hi r = false <-> toordinal (fst r) < lo \/ hi < toordinal (fst r).
Proof. unfold between. rewrite andb_false_iff, !Z.leb_gt. tauto. Qed.

Lemma filter_between_app lo mid hi rows :
  sorted_by_date rows -> lo <= mid + 1 -> mid <= hi ->
  List.filter (between lo mid) rows ++ List.filter (between (mid + 1) hi) rows
  = List.filter (between lo hi) rows.
Proof.
  intros Hs H1 H2. induction rows as [| r t IH]; [reflexivity |].
  apply sorted_by_date_cons in Hs as [Hr Ht]. specialize (IH Ht).
  cbn [List.filter].
  destruct (Z.lt_ge_cases (toordinal (fst r)) lo) as [A | A];
    [| destruct (Z.le_gt_cases (toordinal (fst r)) mid) as [B | B];
       [| destruct (Z.le_gt_cases (toordinal (fst r)) hi) as [C | C]]].
  - rewrite (proj2 (between_false lo mid r)), (proj2 (between_false (mid + 1) hi r)),
      (proj2 (between_false lo hi r)) by lia. exact IH.
  - rewrite (proj2 (between_spec lo mid r)), (proj2 (between_false (mid + 1) hi r)),
      (proj2 (between_spec lo hi r)) by lia. cbn [app]. f_equal. exact IH.
  - rewrite (proj2 (between_false lo mid r)), (proj2 (between_spec (mid + 1) hi r)),
      (proj2 (between_spec lo hi r)) by lia.
    rewrite <- IH.
    assert (List.filter (between lo mid) t = []) as ->; [| reflexivity].
    apply filter_none. eapply List.Forall_impl; [| exact Hr].
    cbn. intros r' Hr'. apply between_false. lia.
  - rewrite (proj2 (between_false lo mid r)), (proj2 (between_false (mid + 1) hi r)),
      (proj2 (between_false lo hi r)) by lia. exact IH.
Qed.

End OrderedSlices.

(** X11. On a frame sorted by date and with today in the requested
    range, the rows until yesterday, the row of today and the rows from
    tomorrow, in this order, are exactly the rows from startdate to
    enddate: no row is counted twice or left out, and the estimate until
    yesterday plus the estimate of the period is the sum over the
    range. *)
Theorem slices_partition_the_range (self : SolaredgeForecast) (data : Solaredge)
    (now : Date) (daily : list Row) :
  valid_date now -> sorted_by_date daily ->
  toordinal (startdate self) <= toordinal now <= toordinal (enddate self) ->
  loc (startdate self) (prev_day now) daily
    ++ loc now now daily ++ loc (next_day now) (enddate self) daily
  = loc (startdate self) (enddate self) daily
  /\ let r := reconcile self data now daily in
     (energy_estimated_until_yesterday r + energy_estimated_period r
      == energy_sum (loc (startdate self) (enddate self) daily))%Q.
Proof.
  intros Hnow Hs Hr.
  assert (loc (startdate self) (prev_day now) daily
            ++ loc now now daily ++ loc (next_day now) (enddate self) daily
          = loc (startdate self) (enddate self) daily) as Hl.
  { rewrite !loc_filter by exact Hs. rewrite !in_range_between.
    rewrite toordinal_prev_day, toordinal_next_day by exact Hnow.
    rewrite (filter_between_app (toordinal now) (toordinal now)) by (auto; lia).
    replace (toordinal now) with (toordinal now - 1 + 1) at 2 by lia.
    apply filter_between_app; auto; lia. }
  split; [exact Hl |]. cbv zeta. rewrite <- Hl.
  unfold reconcile.
  cbn [energy_estimated_until_yesterday energy_estimated_period].
  generalize (loc (startdate self) (prev_day now) daily) as l1.
  generalize (loc now now daily) as l2.
  generalize (loc (next_day now) (enddate self) daily) as l3.
  assert (forall l l' : list Row,
             (energy_sum (l ++ l') == energy_sum l + energy_sum l')%Q) as Happ.
  { induction l as [| [d [v |]] t IH]; intros l'; cbn; rewrite ?IH; ring. }
  intros l3 l2 l1. rewrite !Happ. ring.
Qed.

(** X12. On a frame sorted by date with today not before startdate:
    when today's production exceeds today's estimate the progress is the
    produced energy minus the curve from startdate through today;
    otherwise it is the energy produced until yesterday minus the curve
    from startdate through yesterday. *)
Theorem progress_against_estimate_to_date (self : SolaredgeForecast)
    (data : Solaredge) (now : Date) (daily : list Row) :
  valid_date now -> sorted_by_date daily ->
  toordinal (startdate self) <= toordinal now ->
  let r := reconcile self data now daily in
  ((energy_estimated_today r < energy_produced_today r ->
    energy_production_progress r
    == energy_production_until_now r
       - slice_sum (fun d => (toordinal (startdate self) <=? toordinal d)
                             && (toordinal d <=? toordinal now)) daily)
   /\ (energy_produced_today r <= energy_estimated_today r ->
       energy_production_progress r
       == energy_production_until_now r - energy_produced_today r
          - slice_sum (fun d => (toordinal (startdate self) <=? toordinal d)
                                && (toordinal d <? toordinal now)) daily))%Q.
Proof.
  intros Hnow Hs Hr. cbv zeta.
  pose proof (estimated_today_slice self data now daily Hs) as Et.
  pose proof (estimated_until_yesterday_slice self data now daily Hnow Hs) as Ey.
  assert (energy_estimated_until_yesterday (reconcile self data now daily)
          + energy_estimated_today (reconcile self data now daily)
          == slice_sum (fun d => (toordinal (startdate self) <=? toordinal d)
                                 && (toordinal d <=? toordinal now)) daily)%Q as Hp.
  { rewrite Et, Ey, slice_sum_disjoint.
    2:{ intros d.
        destruct (Z.eqb_spec (toordinal d) (toordinal now)),
          (Z.ltb_spec (toordinal d) (toordinal now)),
          (Z.leb_spec (toordinal (startdate self)) (toordinal d)); cbn; auto; lia. }
    rewrite (slice_sum_ext _ (fun d => (toordinal (startdate self) <=? toordinal d)
                                       && (toordinal d <=? toordinal now)));
      [reflexivity |].
    intros d.
    destruct (Z.eqb_spec (toordinal d) (toordinal now)),
      (Z.ltb_spec (toordinal d) (toordinal now)),
      (Z.leb_spec (toordinal (startdate self)) (toordinal d)),
      (Z.leb_spec (toordinal d) (toordinal now)); cbn; auto; lia. }
  rewrite <- Hp, <- Ey. clear Hp Et Ey.
  unfold reconcile.
  cbn [energy_estimated_today energy_produced_today energy_production_progress
       energy_production_until_now energy_estimated_until_yesterday].
  unfold Py.max.
  set (actual := (get_time_frame_energy data now (next_day now) DAY / 1000)%Q).
  set (estimate := energy_sum (loc now now daily)).
  destruct (Qlt_bool 0 (actual - estimate)) eqn:E.
  - apply Qlt_bool_iff in E. split; intros H; [ring | lra].
  - apply Qlt_bool_false in E. split; intros H; [lra | ring].
Qed.

Section CurveRows.

Lemma increasing_zrange s n : increasing (zrange s n) = true.
Proof.
  revert s; induction n as [| n IH]; intros s; [reflexivity |].
  cbn [zrange increasing]. specialize (IH (s + 1)).
  destruct n as [| n]; [reflexivity |].
  cbn [zrange] in *. rewrite IH, andb_true_r. apply Z.ltb_lt. lia.
Qed.

(** The curve the forecast builds has one row a day. *)
Lemma daily_curve_one_row_a_day self averages daily :
  valid_date (startdate self) -> daily_curve self averages = Ok daily ->
  one_row_a_day daily.
Proof.
  intros Hs Hd. unfold one_row_a_day.
  rewrite (daily_curve_ordinals self averages daily Hs Hd). apply increasing_zrange.
Qed.

End CurveRows.

(** X13. When today is after enddate, no day is left from tomorrow
    through enddate: with the averages of the history and the curve
    built from them, the forecast returns and its estimate is the
    rounded value of that curve at today alone; when today is after the
    padded index as well, the estimate is 0 and the forecast equals the
    produced energy. *)
Theorem estimate_after_the_range (self : SolaredgeForecast) (data : Solaredge)
    (now : Date) (averages : gmap Z Q) (daily : list Row) :
  seasonal_averages
    (get_energy data (production_start self data) (last_month now) MONTH)
  = Ok averages ->
  daily_curve self averages = Ok daily ->
  valid_date (startdate self) -> valid_date now ->
  toordinal (enddate self) < toordinal now ->
  exists result,
    get_solar_forecast self data now = Ok result
    /\ solar_energy_estimated result = round (curve_value daily (toordinal now))
    /\ (toordinal (last_day self) < toordinal now ->
        solar_energy_estimated result = 0
        /\ solar_energy_forecast result = solar_energy_produced result).
Proof.
  intros Ha Hd Hs Hnow Hlate.
  exists (rounded (reconcile self data now daily)).
  split. { apply get_solar_forecast_ok. exists averages, daily. auto. }
  pose proof (daily_curve_one_row_a_day self averages daily Hs Hd) as Hrows.
  pose proof (curve_value_loc daily now Hrows) as Et.
  pose proof (curve_sum_loc daily (next_day now) (enddate self) Hrows) as Ef.
  assert (curve_sum daily (toordinal (next_day now)) (toordinal (enddate self))
          = 0%Q) as Hz.
  { unfold curve_sum. rewrite toordinal_next_day by exact Hnow.
    replace (Z.to_nat (toordinal (enddate self) - (toordinal now + 1) + 1))
      with 0%nat by lia.
    reflexivity. }
  rewrite Hz in Ef.
  assert (energy_estimated_period (reconcile self data now daily)
          == curve_value daily (toordinal now))%Q as Hp.
  { unfold reconcile. cbn [energy_estimated_period]. rewrite Et, Ef. ring. }
  unfold rounded.
  cbn [solar_energy_estimated solar_energy_produced solar_energy_forecast].
  split; [apply round_comp, Hp |].
  intros Hbeyond.
  assert (curve_value daily (toordinal now) = 0%Q) as Hv.
  { apply curve_value_absent. apply List.Forall_forall. intros r Hr.
    apply (in_map fst) in Hr. rewrite (daily_curve_index self averages daily Hd) in Hr.
    destruct (daily_index_valid self _ Hs Hr) as [_ Hb]. lia. }
  rewrite Hv in Hp. split.
  - rewrite (round_comp _ _ Hp). reflexivity.
  - apply round_comp.
    change (forecast (reconcile self data now daily))
      with (energy_estimated_period (reconcile self data now daily)
            + energy_production_until_now (reconcile self data now daily))%Q.
    rewrite Hp. ring.
Qed.

Section RoundedSum.

Local Open Scope Q_scope.

Lemma nearest_sum_within_one (a b : Q) (za zb zs : Z) :
  nearest_integer a za -> nearest_integer b zb -> nearest_integer (a + b) zs ->
  (Z.abs (zs - (za + zb)) <= 1)%Z.
Proof.
  unfold nearest_integer. intros Ha Hb Hs.
  apply Qabs_Qle_condition in Ha, Hb, Hs.
  assert (- (3 # 2) <= inject_Z (zs - (za + zb)) <= 3 # 2) as [Hl Hu].
  { unfold Z.sub. rewrite !inject_Z_plus, inject_Z_opp, inject_Z_plus. lra. }
  unfold Qle in Hl, Hu. cbn in Hl, Hu. lia.
Qed.

End RoundedSum.

(** X14. In exact arithmetic, the forecast of a returned result differs
    from the sum of its estimate and its produced energy by at most 1:
    the three are rounded separately. (The doubles of the code round
    the sum estimate + produced once more; beyond 2^53 kWh, where a
    double no longer carries every integer, the difference can be 2.) *)
Theorem forecast_is_sum_within_one (self : SolaredgeForecast) (data : Solaredge)
    (now : Date) (result : ForecastData) :
  get_solar_forecast self data now = Ok result ->
  Z.abs (solar_energy_forecast result
         - (solar_energy_estimated result + solar_energy_produced result)) <= 1.
Proof.
  intros H. apply get_solar_forecast_ok in H as (averages & daily & _ & _ & ->).
  unfold rounded.
  cbn [solar_energy_forecast solar_energy_estimated solar_energy_produced].
  apply (nearest_sum_within_one
           (energy_estimated_period (reconcile self data now daily))
           (energy_production_until_now (reconcile self data now daily)));
    apply round_nearest.
Qed.

(** ** Instances of the further properties *)

(** An explicit production start in the middle of January 2022. *)
Lemma production_start_witness :
  valid_date (mkDate 2022 1 15)
  /\ day (production_start
            (init (mkDate 2024 3 1) (mkDate 2024 3 31) (Some (mkDate 2022 1 15)))
            flat_provider)
     = 1.
Proof.
  assert (valid_date (mkDate 2022 1 15)) as H
    by (apply valid_date_iff; vm_compute; reflexivity).
  split; [exact H |].
  exact (proj1 (proj2 (production_start_is_month_aligned
                         (mkDate 2024 3 1) (mkDate 2024 3 31)
                         (Some (mkDate 2022 1 15)) flat_provider H))).
Defined.

(** The month before 2024-03-15 ends on 2024-02-29. *)
Lemma last_month_witness :
  valid_date (mkDate 2024 3 15)
  /\ next_day (last_month (mkDate 2024 3 15)) = mkDate 2024 3 1.
Proof.
  assert (valid_date (mkDate 2024 3 15)) as H
    by (apply valid_date_iff; vm_compute; reflexivity).
  split; [exact H |].
  exact (proj1 (proj2 (proj2 (last_month_is_end_of_previous_month _ H)))).
Defined.


(** The history without February fails on the 15th of February 2024. *)
Lemma key_error_witness :
  daily_curve march_2024 sparse_averages = Raise (KeyError 2)
  /\ exists before d after,
       daily_index march_2024 = before ++ d :: after
       /\ day d = 15 /\ sparse_averages !! month d = None.
Proof.
  assert (daily_curve march_2024 sparse_averages = Raise (KeyError 2)) as H
    by (vm_compute; reflexivity).
  split; [exact H |].
  destruct (key_error_names_first_missing_month march_2024 sparse_averages _ H)
    as (before & d & after & Hi & H15 & Hn & _).
  exists before, d, after. auto.
Defined.

(** A history of one January without energy. *)
Lemma zero_history_witness :
  valid_date (startdate march_2024) /\ valid_date (enddate march_2024)
  /\ toordinal (startdate march_2024) <= toordinal (enddate march_2024)
  /\ (forall r,
        In r (get_energy zero_provider (production_start march_2024 zero_provider)
                (last_month (mkDate 2024 3 15)) MONTH) ->
        (ev_value r == 0)%Q)
  /\ ~ (exists result,
          get_solar_forecast march_2024 zero_provider (mkDate 2024 3 15)
          = Ok result).
Proof.
  assert (valid_date (startdate march_2024)) as H1
    by (apply valid_date_iff; vm_compute; reflexivity).
  assert (valid_date (enddate march_2024)) as H2
    by (apply valid_date_iff; vm_compute; reflexivity).
  assert (toordinal (startdate march_2024) <= toordinal (enddate march_2024)) as H3
    by (vm_compute; discriminate).
  assert (forall r,
            In r (get_energy zero_provider (production_start march_2024 zero_provider)
                    (last_month (mkDate 2024 3 15)) MONTH) ->
            (ev_value r == 0)%Q) as H4.
  { intros r [<- | []]. reflexivity. }
  split; [exact H1 |]. split; [exact H2 |]. split; [exact H3 |]. split; [exact H4 |].
  intros [result Hr].
  destruct (history_without_energy_gives_no_forecast march_2024 zero_provider
              (mkDate 2024 3 15) H1 H2 H3 H4)
    as [[_ E] | (_ & d & _ & _ & E)]; rewrite E in Hr; discriminate Hr.
Defined.

(** A history of one January with energy. *)
Lemma single_month_witness :
  valid_date (startdate march_2024) /\ valid_date (enddate march_2024)
  /\ toordinal (startdate march_2024) <= toordinal (enddate march_2024)
  /\ exists e,
       get_solar_forecast march_2024 january_provider (mkDate 2024 3 15) = Raise e.
Proof.
  assert (valid_date (startdate march_2024)) as H1
    by (apply valid_date_iff; vm_compute; reflexivity).
  assert (valid_date (enddate march_2024)) as H2
    by (apply valid_date_iff; vm_compute; reflexivity).
  assert (toordinal (startdate march_2024) <= toordinal (enddate march_2024)) as H3
    by (vm_compute; discriminate).
  split; [exact H1 |]. split; [exact H2 |]. split; [exact H3 |].
  apply (single_month_history_never_forecasts march_2024 january_provider
           (mkDate 2024 3 15) H1 H2 H3).
  intros r r' [<- | []] [<- | []] _ _. reflexivity.
Defined.



(** Halfway between 10 and 20 the column holds 15. *)
Lemma linear_witness :
  (1 <= 2)%nat
  /\ exists v,
       nth_error (interpolate_column [Some 10%Q; None; Some 20%Q]) 1 = Some (Some v)
       /\ (v == 15)%Q.
Proof.
  assert (1 <= 2)%nat as H by lia.
  split; [exact H |].
  destruct (interpolation_is_linear_between_seeds [] [] 10 20 1 1 H) as (v & Hv & Ev).
  exists v. split; [exact Hv |]. rewrite Ev. reflexivity.
Defined.

Lemma flat_history_nonneg r :
  In r (get_energy flat_provider (production_start march_2024 flat_provider)
          (last_month (mkDate 2024 3 15)) MONTH) ->
  (0 <= ev_value r)%Q.
Proof.
  intros H. vm_compute in H.
  repeat (destruct H as [<- | H]; [vm_compute; discriminate |]). destruct H.
Qed.

Lemma flat_forecast_mid_march :
  get_solar_forecast march_2024 flat_provider (mkDate 2024 3 15)
  = Ok (mkData 450 170 620 300).
Proof. vm_compute. reflexivity. Qed.

(** The flat history gives an estimate of 170 and a forecast of 620. *)
Lemma nonnegative_witness :
  (forall r,
      In r (get_energy flat_provider (production_start march_2024 flat_provider)
              (last_month (mkDate 2024 3 15)) MONTH) ->
      (0 <= ev_value r)%Q)
  /\ get_solar_forecast march_2024 flat_provider (mkDate 2024 3 15)
     = Ok (mkData 450 170 620 300)
  /\ 0 <= 170 /\ 450 <= 620.
Proof.
  split; [exact flat_history_nonneg |]. split; [exact flat_forecast_mid_march |].
  exact (nonnegative_history_gives_nonnegative_estimate march_2024 flat_provider
           (mkDate 2024 3 15) (mkData 450 170 620 300)
           flat_history_nonneg flat_forecast_mid_march).
Defined.

(** The three slices of the sample curve on 2024-03-15. *)
Lemma partition_witness :
  valid_date (mkDate 2024 3 15) /\ sorted_by_date sample_curve
  /\ toordinal (startdate march_2024) <= toordinal (mkDate 2024 3 15)
     <= toordinal (enddate march_2024)
  /\ loc (startdate march_2024) (prev_day (mkDate 2024 3 15)) sample_curve
       ++ loc (mkDate 2024 3 15) (mkDate 2024 3 15) sample_curve
       ++ loc (next_day (mkDate 2024 3 15)) (enddate march_2024) sample_curve
     = loc (startdate march_2024) (enddate march_2024) sample_curve.
Proof.
  assert (valid_date (mkDate 2024 3 15)) as H1
    by (apply valid_date_iff; vm_compute; reflexivity).
  assert (sorted_by_date sample_curve) as H2 by (vm_compute; reflexivity).
  assert (toordinal (startdate march_2024) <= toordinal (mkDate 2024 3 15)
          <= toordinal (enddate march_2024)) as H3
    by (vm_compute; split; discriminate).
  split; [exact H1 |]. split; [exact H2 |]. split; [exact H3 |].
  pose proof (slices_partition_the_range march_2024 flat_provider
                (mkDate 2024 3 15) sample_curve H1 H2 H3) as [P _].
  exact P.
Defined.

(** On the sample curve today's 12 kWh exceed the estimate of 10. *)
Lemma progress_witness :
  valid_date (mkDate 2024 3 15) /\ sorted_by_date sample_curve
  /\ toordinal (startdate march_2024) <= toordinal (mkDate 2024 3 15)
  /\ (energy_production_progress
        (reconcile march_2024 flat_provider (mkDate 2024 3 15) sample_curve)
      == 450 - 19)%Q.
Proof.
  assert (valid_date (mkDate 2024 3 15)) as H1
    by (apply valid_date_iff; vm_compute; reflexivity).
  assert (sorted_by_date sample_curve) as H2 by (vm_compute; reflexivity).
  assert (toordinal (startdate march_2024) <= toordinal (mkDate 2024 3 15)) as H3
    by (vm_compute; discriminate).
  split; [exact H1 |]. split; [exact H2 |]. split; [exact H3 |].
  destruct (progress_against_estimate_to_date march_2024 flat_provider
              (mkDate 2024 3 15) sample_curve H1 H2 H3) as [Hover _].
  rewrite Hover; [vm_compute; reflexivity | vm_compute; reflexivity].
Defined.

Lemma flat_forecast_april :
  get_solar_forecast march_2024 flat_provider (mkDate 2024 4 5)
  = Ok (mkData 450 10 460 90).
Proof. vm_compute. reflexivity. Qed.

Lemma flat_averages_ok :
  seasonal_averages
    (get_energy flat_provider (production_start march_2024 flat_provider)
       (last_month (mkDate 2024 4 5)) MONTH)
  = Ok flat_averages.
Proof. vm_compute. reflexivity. Qed.

(** Five days after the end of March 2024 the curve still holds 10, and
    so does the estimate. *)
Lemma after_range_witness :
  seasonal_averages
    (get_energy flat_provider (production_start march_2024 flat_provider)
       (last_month (mkDate 2024 4 5)) MONTH)
  = Ok flat_averages
  /\ daily_curve march_2024 flat_averages = Ok flat_curve
  /\ valid_date (startdate march_2024) /\ valid_date (mkDate 2024 4 5)
  /\ toordinal (enddate march_2024) < toordinal (mkDate 2024 4 5)
  /\ (curve_value flat_curve (toordinal (mkDate 2024 4 5)) == 10)%Q
  /\ exists result,
       get_solar_forecast march_2024 flat_provider (mkDate 2024 4 5) = Ok result
       /\ solar_energy_estimated result = 10.
Proof.
  assert (valid_date (startdate march_2024)) as H1
    by (apply valid_date_iff; vm_compute; reflexivity).
  assert (valid_date (mkDate 2024 4 5)) as H2
    by (apply valid_date_iff; vm_compute; reflexivity).
  assert (toordinal (enddate march_2024) < toordinal (mkDate 2024 4 5)) as H3
    by (vm_compute; reflexivity).
  split; [exact flat_averages_ok |]. split; [exact flat_curve_ok |].
  split; [exact H1 |]. split; [exact H2 |]. split; [exact H3 |].
  split; [vm_compute; reflexivity |].
  destruct (estimate_after_the_range march_2024 flat_provider (mkDate 2024 4 5)
              flat_averages flat_curve flat_averages_ok flat_curve_ok H1 H2 H3)
    as (result & E & Hest & _).
  exists result. split; [exact E |].
  rewrite Hest. vm_compute. reflexivity.
Defined.

(** 620 against 170 + 450. *)
Lemma sum_within_one_witness :
  get_solar_forecast march_2024 flat_provider (mkDate 2024 3 15)
  = Ok (mkData 450 170 620 300)
  /\ Z.abs (620 - (170 + 450)) <= 1.
Proof.
  split; [exact flat_forecast_mid_march |].
  exact (forecast_is_sum_within_one march_2024 flat_provider (mkDate 2024 3 15)
           (mkData 450 170 620 300) flat_forecast_mid_march).
Defined.
